(** * Battleship client: ship placement, board projection and move gating

  A shallow embedding of the client-side match logic:
  - [ShipPlacement] (components/ShipPlacement.js): cell generation,
    placement validation and the placement session;
  - [GameBoard] (components/GameBoard.js): the cell-state projection, the
    click handler and the 5x5 grid;
  - [Game] (the game page): how the two boards are instantiated.

  JavaScript numbers that hold coordinates, sizes and indices are integers
  here ([Z]); strings are [string]; arrays are lists; [===] on numbers is
  [Z.eqb] and on strings [String.eqb].  The numbers of the code are doubles:
  its sums are the integer sums written here as long as they stay within
  magnitude 2^53, which every coordinate of the board and every ship size
  does. *)

From Stdlib Require Import ZArith List String Bool Lia FinFun.
Import ListNotations.
Open Scope string_scope.
Open Scope list_scope.
Open Scope Z_scope.

(** ** JavaScript array helpers *)
Module JS.

(** A coordinate pair, the two-element array [[x, y]]. *)
Definition Cell : Type := (Z * Z)%type.

(** [arr.length]. *)
Definition length {A : Type} (arr : list A) : Z := Z.of_nat (List.length arr).

(** [arr[i]]: [None] is [undefined] (negative or past the end). *)
Definition index {A : Type} (arr : list A) (i : Z) : option A :=
  if i <? 0 then None else nth_error arr (Z.to_nat i).

(** [Array.from({ length: n })] paired with the [index] argument of the
    [.map] callback: the indices [0 .. n-1]. *)
Definition indices (n : Z) : list Z := map Z.of_nat (seq 0 (Z.to_nat n)).

(** [cell[0] === x && cell[1] === y]. *)
Definition cellIs (x y : Z) (cell : Cell) : bool :=
  (fst cell =? x) && (snd cell =? y).

End JS.

(** ** components/ShipPlacement.js *)
Module ShipPlacement.

Import JS.

Definition GRID_SIZE : Z := 5.

Module ShipKind.
Record t : Type := mk { size : Z; name : string; color : string }.
End ShipKind.

Definition SHIPS : list ShipKind.t :=
  [ ShipKind.mk 4 "Battleship" "from-blue-500 to-blue-600";
    ShipKind.mk 3 "Cruiser" "from-green-500 to-green-600";
    ShipKind.mk 2 "Destroyer" "from-purple-500 to-purple-600" ].

(** The object literal [{ size, cells, name }] built by [handleCellClick]. *)
Module Ship.
Record t : Type := mk { size : Z; cells : list Cell; name : string }.
End Ship.

(** The [for (let i = 0; i < size; i++)] loop of [getCellsForShip], with
    [cells] as the array built so far.  [None] only when [fuel] runs out.
    The sums [startY + i], [startX + i] and [i + 1] are integer sums: what
    the code's doubles compute as long as they stay within magnitude
    2^53. *)
Fixpoint getCellsForShip_loop (fuel : nat) (startX startY size : Z)
    (orient : string) (i : Z) (cells : list Cell) : option (list Cell) :=
  if i <? size then
    match fuel with
    | O => None
    | S fuel' =>
        let cells' :=
          if String.eqb orient "horizontal"
          then cells ++ [(startX, startY + i)]
          else cells ++ [(startX + i, startY)] in
        getCellsForShip_loop fuel' startX startY size orient (i + 1) cells'
    end
  else Some cells.

Definition getCellsForShip (startX startY size : Z) (orient : string)
    : list Cell :=
  match getCellsForShip_loop (Z.to_nat size) startX startY size orient 0 []
  with
  | Some cells => cells
  | None => []
  end.

(** First loop of [isValidPlacement]: [false] is the early [return false]. *)
Fixpoint boundsLoop (cells : list Cell) : bool :=
  match cells with
  | [] => true
  | (x, y) :: rest =>
      if (x <? 0) || (x >=? GRID_SIZE) || (y <? 0) || (y >=? GRID_SIZE)
      then false
      else boundsLoop rest
  end.

(** Innermost overlap loop: [for (const [cx, cy] of cells)]. *)
Fixpoint candidateLoop (x y : Z) (cells : list Cell) : bool :=
  match cells with
  | [] => true
  | (cx, cy) :: rest =>
      if (x =? cx) && (y =? cy) then false else candidateLoop x y rest
  end.

(** Middle overlap loop: [for (const [x, y] of ship.cells)]. *)
Fixpoint shipCellsLoop (shipCells cells : list Cell) : bool :=
  match shipCells with
  | [] => true
  | (x, y) :: rest =>
      if candidateLoop x y cells then shipCellsLoop rest cells else false
  end.

(** Outer overlap loop: [for (const ship of placedShips)]. *)
Fixpoint overlapLoop (placedShips : list Ship.t) (cells : list Cell) : bool :=
  match placedShips with
  | [] => true
  | ship :: rest =>
      if shipCellsLoop (Ship.cells ship) cells
      then overlapLoop rest cells
      else false
  end.

Definition isValidPlacement (placedShips : list Ship.t) (cells : list Cell)
    : bool :=
  if boundsLoop cells then overlapLoop placedShips cells else false.

(** The five [useState] cells of the component. *)
Module State.
Record t : Type := mk {
  placedShips : list Ship.t;
  currentShipIndex : Z;
  orientation : string;
  hoveredCells : list Cell;
  isValid : bool
}.
End State.

(** State on first render: the [useState] initial values. *)
Definition initialState : State.t :=
  State.mk [] 0 "horizontal" [] true.

(** What a handler does besides computing: state setters, toasts, the
    [onComplete] prop, and the [TypeError] of reading a property of
    [undefined]. *)
Inductive Action : Type :=
| setPlacedShips (v : list Ship.t)
| setCurrentShipIndex (v : Z)
| setOrientation (v : string)
| setHoveredCells (v : list Cell)
| setIsValid (v : bool)
| toast_error (msg : string)
| toast_success (msg : string)
| onComplete (ships : list Ship.t)
| throwTypeError.

(** A setter replaces its state cell; the other actions leave the
    component state alone. *)
Definition applyAction (st : State.t) (a : Action) : State.t :=
  match a with
  | setPlacedShips v =>
      State.mk v (State.currentShipIndex st) (State.orientation st)
        (State.hoveredCells st) (State.isValid st)
  | setCurrentShipIndex v =>
      State.mk (State.placedShips st) v (State.orientation st)
        (State.hoveredCells st) (State.isValid st)
  | setOrientation v =>
      State.mk (State.placedShips st) (State.currentShipIndex st) v
        (State.hoveredCells st) (State.isValid st)
  | setHoveredCells v =>
      State.mk (State.placedShips st) (State.currentShipIndex st)
        (State.orientation st) v (State.isValid st)
  | setIsValid v =>
      State.mk (State.placedShips st) (State.currentShipIndex st)
        (State.orientation st) (State.hoveredCells st) v
  | toast_error _ | toast_success _ | onComplete _ | throwTypeError => st
  end.

(** The state of the next render: the handler's setters applied in order. *)
Definition commit (st : State.t) (acts : list Action) : State.t :=
  fold_left applyAction acts st.

(** [const currentShip = SHIPS[currentShipIndex]]. *)
Definition currentShip (st : State.t) : option ShipKind.t :=
  index SHIPS (State.currentShipIndex st).

Definition handleCellHover (st : State.t) (x y : Z) : list Action :=
  if State.currentShipIndex st >=? length SHIPS then []
  else
    match currentShip st with
    | None => [throwTypeError]
    | Some ship =>
        let cells :=
          getCellsForShip x y (ShipKind.size ship) (State.orientation st) in
        [ setHoveredCells cells;
          setIsValid (isValidPlacement (State.placedShips st) cells) ]
    end.

Definition handleCellClick (st : State.t) (x y : Z) : list Action :=
  if State.currentShipIndex st >=? length SHIPS then []
  else
    match currentShip st with
    | None => [throwTypeError]
    | Some ship =>
        let cells :=
          getCellsForShip x y (ShipKind.size ship) (State.orientation st) in
        if negb (isValidPlacement (State.placedShips st) cells) then
          [ toast_error
              "Invalid placement! Ships cannot overlap or go out of bounds." ]
        else
          let newShip :=
            Ship.mk (ShipKind.size ship) cells (ShipKind.name ship) in
          [ setPlacedShips (State.placedShips st ++ [newShip]);
            setCurrentShipIndex (State.currentShipIndex st + 1);
            setHoveredCells [] ]
          ++ (if State.currentShipIndex st =? length SHIPS - 1
              then [ toast_success "All ships placed! Ready to start game." ]
              else [])
    end.

Definition handleReset (st : State.t) : list Action :=
  [ setPlacedShips []; setCurrentShipIndex 0; setHoveredCells [] ].

Definition handleComplete (st : State.t) : list Action :=
  if negb (length (State.placedShips st) =? length SHIPS) then
    [ toast_error "Please place all ships before starting" ]
  else [ onComplete (State.placedShips st) ].

(** The inline [onClick] of the rotate button. *)
Definition handleRotate (st : State.t) : list Action :=
  [ setOrientation
      (if String.eqb (State.orientation st) "horizontal"
       then "vertical" else "horizontal") ].

(** The inline [onMouseLeave] of a grid cell. *)
Definition handleCellLeave (st : State.t) : list Action :=
  [ setHoveredCells [] ].

(** User events the component has a handler for. *)
Inductive Event : Type :=
| CellClick (x y : Z)
| CellHover (x y : Z)
| CellLeave
| Rotate
| Reset
| Complete.

Definition handle (st : State.t) (ev : Event) : list Action :=
  match ev with
  | CellClick x y => handleCellClick st x y
  | CellHover x y => handleCellHover st x y
  | CellLeave => handleCellLeave st
  | Rotate => handleRotate st
  | Reset => handleReset st
  | Complete => handleComplete st
  end.

(** One event: run its handler on the rendered state, then re-render. *)
Definition step (st : State.t) (ev : Event) : State.t :=
  commit st (handle st ev).

(** A placement session: events handled one after the other. *)
Definition run (st : State.t) (evs : list Event) : State.t :=
  fold_left step evs st.

(** The fleets a handler run hands to the [onComplete] prop. *)
Definition fleetsOf (acts : list Action) : list (list Ship.t) :=
  flat_map (fun a => match a with onComplete f => [f] | _ => [] end) acts.

(** Every fleet handed to [onComplete] during a session, oldest first. *)
Fixpoint submitted (st : State.t) (evs : list Event) : list (list Ship.t) :=
  match evs with
  | [] => []
  | ev :: rest => fleetsOf (handle st ev) ++ submitted (step st ev) rest
  end.

(** [isCellOccupied] of the render. *)
Definition isCellOccupied (st : State.t) (x y : Z) : bool :=
  existsb (fun ship =>
             existsb (fun '(cx, cy) => (cx =? x) && (cy =? y))
               (Ship.cells ship))
    (State.placedShips st).

(** [isCellHovered] of the render. *)
Definition isCellHovered (st : State.t) (x y : Z) : bool :=
  existsb (fun '(cx, cy) => (cx =? x) && (cy =? y)) (State.hoveredCells st).

(** The colour classes of the grid cell [(x, y)]: the nested conditional of
    the cell's [className]. *)
Definition cellColour (st : State.t) (x y : Z) : string :=
  let occupied := isCellOccupied st x y in
  let hovered := isCellHovered st x y in
  if occupied then "bg-green-500/40 border-green-500"
  else if hovered then
    if State.isValid st
    then "bg-blue-500/30 border-blue-500 ship-preview"
    else "bg-red-500/30 border-red-500 ship-preview invalid"
  else "bg-slate-800/60 border-slate-600 hover:border-slate-500".

End ShipPlacement.

(** ** components/GameBoard.js *)
Module GameBoard.

Import JS.

Definition gridSize : Z := 5.

(** A move as the board reads it: [m.x], [m.y], [m.result]. *)
Module Move.
Record t : Type := mk { x : Z; y : Z; result : string }.
End Move.

(** A ship as the board reads it: [ship.cells] and [ship.sunk], which may be
    absent ([None] is [undefined]). *)
Module Ship.
Record t : Type := mk { cells : list Cell; sunk : option bool }.
End Ship.

(** The props, for a board whose [onCellClick] callbacks are named by
    [Callback]; [onCellClick = None] is [null]. *)
Record Props (Callback : Type) : Type := mkProps {
  ships : list Ship.t;
  moves : list Move.t;
  isPlayerBoard : bool;
  onCellClick : option Callback;
  disabled : bool
}.

Arguments mkProps {Callback}.
Arguments ships {Callback}.
Arguments moves {Callback}.
Arguments isPlayerBoard {Callback}.
Arguments onCellClick {Callback}.
Arguments disabled {Callback}.

(** An invocation [f(x, y)] of a callback prop. *)
Inductive Call (Callback : Type) : Type :=
| call (f : Callback) (x y : Z).

Arguments call {Callback}.

(** [m => m.x === x && m.y === y]. *)
Definition moveAt (x y : Z) (m : Move.t) : bool :=
  (Move.x m =? x) && (Move.y m =? y).

(** [ship => ship.cells.some(cell => cell[0] === x && cell[1] === y)]. *)
Definition shipAt (x y : Z) (ship : Ship.t) : bool :=
  existsb (cellIs x y) (Ship.cells ship).

(** [ship?.sunk || false], read as a condition. *)
Definition sunkFlag (ship : option Ship.t) : bool :=
  match ship with
  | Some s => match Ship.sunk s with Some b => b | None => false end
  | None => false
  end.

Definition getCellState {Callback : Type} (p : Props Callback) (x y : Z)
    : string :=
  let move := find (moveAt x y) (moves p) in
  if isPlayerBoard p then
    let hasShip := existsb (shipAt x y) (ships p) in
    match move with
    | Some _ =>
        if hasShip then
          let ship := find (shipAt x y) (ships p) in
          let isSunk := sunkFlag ship in
          if isSunk then "sunk" else "hit"
        else "miss"
    | None => if hasShip then "ship" else "empty"
    end
  else
    match move with
    | Some m =>
        if String.eqb (Move.result m) "miss" then "miss"
        else if String.eqb (Move.result m) "sunk" then "sunk"
        else "hit"
    | None => "empty"
    end.

Definition handleCellClick {Callback : Type} (p : Props Callback) (x y : Z)
    : list (Call Callback) :=
  match disabled p, onCellClick p with
  | true, _ | _, None => []
  | false, Some f =>
      let alreadyTargeted := existsb (moveAt x y) (moves p) in
      if alreadyTargeted then [] else [call f x y]
  end.

(** A rendered grid button: its coordinates (the [key] and [data-testid]),
    the projected state, what its [onClick] closure does, and [disabled]. *)
Module Button.
Record t (Callback : Type) : Type := mk {
  x : Z;
  y : Z;
  cellState : string;
  onClick : list (Call Callback);
  disabled : bool
}.
Arguments mk {Callback}.
Arguments x {Callback}.
Arguments y {Callback}.
Arguments cellState {Callback}.
Arguments onClick {Callback}.
Arguments disabled {Callback}.
End Button.

(** The grid: one button per index of [Array.from({ length: 25 })]. *)
Definition render {Callback : Type} (p : Props Callback)
    : list (Button.t Callback) :=
  map (fun index =>
         let x := index / gridSize in
         let y := Z.rem index gridSize in
         let cellState := getCellState p x y in
         Button.mk x y cellState (handleCellClick p x y) (disabled p))
    (indices (gridSize * gridSize)).

(** A user click: a disabled button dispatches nothing. *)
Definition click {Callback : Type} (b : Button.t Callback)
    : list (Call Callback) :=
  if Button.disabled b then [] else Button.onClick b.

(** A click on the [k]-th button of the rendered grid, if there is one. *)
Definition clickAt {Callback : Type} (p : Props Callback) (k : nat)
    : list (Call Callback) :=
  match nth_error (render p) k with
  | Some b => click b
  | None => []
  end.

(** The pieces of a grid button's [className] template, in order; an empty
    piece is a conditional class that is off. *)
Definition className (disabled : bool) (cellState : string) : list string :=
  [ "grid-cell w-16 h-16 md:w-20 md:h-20 flex items-center justify-center";
    if String.eqb cellState "ship" then "ship" else "";
    if String.eqb cellState "hit" then "hit" else "";
    if String.eqb cellState "miss" then "miss" else "";
    if String.eqb cellState "sunk" then "sunk" else "";
    if disabled || negb (String.eqb cellState "empty")
    then "disabled" else "" ].

(** The [className] pieces of the button of cell [(x, y)]. *)
Definition buttonClassName {Callback : Type} (p : Props Callback) (x y : Z)
    : list string :=
  className (disabled p) (getCellState p x y).

End GameBoard.

(** ** The game page *)
Module Game.

Import JS.

(** The fields of [game] the page reads; nullable ids are [option]. *)
Module GameData.
Record t : Type := mk {
  creator_id : string;
  opponent_id : option string;
  state : string;
  current_turn : option string;
  winner_id : option string
}.
End GameData.

Module User.
Record t : Type := mk { id : string }.
End User.

(** The response of [GET /games/:id/board]. *)
Module BoardState.
Record t : Type := mk {
  my_ships : list GameBoard.Ship.t;
  opponent_moves : list GameBoard.Move.t;
  my_moves : list GameBoard.Move.t
}.
End BoardState.

(** The page's functions that are passed down as callbacks. *)
Inductive Callback : Type :=
| handleMove.

(** Requests the page sends: [api.post(`/games/${gameId}/move`, { x, y })]. *)
Inductive Request : Type :=
| post_move (gameId : string) (x y : Z).

(** [a === b] for a nullable id [a] and a string [b]. *)
Definition strictEq (a : option string) (b : string) : bool :=
  match a with
  | Some s => String.eqb s b
  | None => false
  end.

Definition isMyTurn (game : GameData.t) (user : User.t) : bool :=
  strictEq (GameData.current_turn game) (User.id user).

Definition isWaiting (game : GameData.t) : bool :=
  String.eqb (GameData.state game) "waiting".

Definition isFinished (game : GameData.t) : bool :=
  String.eqb (GameData.state game) "finished".

(** The "Your Fleet" board. *)
Definition ownBoard (boardState : BoardState.t) : GameBoard.Props Callback :=
  GameBoard.mkProps (BoardState.my_ships boardState)
    (BoardState.opponent_moves boardState) true None true.

(** The "Enemy Waters" board. *)
Definition enemyBoard (game : GameData.t) (user : User.t)
    (boardState : BoardState.t) : GameBoard.Props Callback :=
  GameBoard.mkProps [] (BoardState.my_moves boardState) false
    (Some handleMove) (negb (isMyTurn game user) || isFinished game).

(** What the page renders: the loading screen, or the page with its two
    boards, which are absent while the game is waiting. *)
Inductive View : Type :=
| LoadingView
| PageView
    (boards : option (GameBoard.Props Callback * GameBoard.Props Callback)).

Definition render (loading : bool) (game : option GameData.t)
    (boardState : option BoardState.t) (user : User.t) : View :=
  if loading then LoadingView
  else
    match game, boardState with
    | Some g, Some b =>
        PageView
          (if negb (isWaiting g)
           then Some (ownBoard b, enemyBoard g user b)
           else None)
    | _, _ => LoadingView
    end.

(** Running a callback invocation made by a board: [handleMove(x, y)] posts
    the move. *)
Definition perform (gameId : string) (c : GameBoard.Call Callback)
    : list Request :=
  match c with
  | GameBoard.call handleMove x y => [post_move gameId x y]
  end.

(** A click on the [k]-th cell of the enemy board of a rendered view. *)
Definition clickEnemyCell (gameId : string) (v : View) (k : nat)
    : list Request :=
  match v with
  | PageView (Some (_, enemy)) =>
      flat_map (perform gameId) (GameBoard.clickAt enemy k)
  | _ => []
  end.

(** A click on the [k]-th cell of the viewer's own board. *)
Definition clickOwnCell (gameId : string) (v : View) (k : nat)
    : list Request :=
  match v with
  | PageView (Some (own, _)) =>
      flat_map (perform gameId) (GameBoard.clickAt own k)
  | _ => []
  end.

Definition isCreator (game : GameData.t) (user : User.t) : bool :=
  String.eqb (GameData.creator_id game) (User.id user).

(** [opponent.id]: the other side's id as the page picks it. *)
Definition opponentId (game : GameData.t) (user : User.t) : option string :=
  if isCreator game user
  then GameData.opponent_id game
  else Some (GameData.creator_id game).

Definition isWinner (game : GameData.t) (user : User.t) : bool :=
  strictEq (GameData.winner_id game) (User.id user).

(** The surrender button is rendered: [!isWaiting && !isFinished]. *)
Definition showSurrender (game : GameData.t) : bool :=
  negb (isWaiting game) && negb (isFinished game).

(** The "YOUR TURN" badge is rendered. *)
Definition showYourTurn (game : GameData.t) (user : User.t) : bool :=
  negb (isWaiting game) && (isMyTurn game user && negb (isFinished game)).

(** The "OPPONENT'S TURN" badge is rendered. *)
Definition showOpponentsTurn (game : GameData.t) (user : User.t) : bool :=
  negb (isWaiting game)
  && (negb (isMyTurn game user) && negb (isFinished game)).

(** The headline of the result card, when it is rendered. *)
Definition resultHeadline (game : GameData.t) (user : User.t)
    : option string :=
  if isFinished game
  then Some (if isWinner game user then "Victory!" else "Defeat")
  else None.

(** What [handleSurrender] does besides computing. *)
Inductive SurrenderEffect : Type :=
| post_surrender (gameId : string)
| toast_info (msg : string)
| toast_error (msg : string)
| navigate (path : string).

(** [handleSurrender]: [confirmed] is the answer of [window.confirm],
    [posted] tells whether the request resolved. *)
Definition handleSurrender (gameId : string) (confirmed posted : bool)
    : list SurrenderEffect :=
  if negb confirmed then []
  else
    post_surrender gameId
    :: (if posted
        then [toast_info "You surrendered the game"; navigate "/lobby"]
        else [toast_error "Failed to surrender"]).

(** A click on the surrender button of the rendered page, if it is there. *)
Definition clickSurrender (gameId : string) (loading : bool)
    (game : option GameData.t) (boardState : option BoardState.t)
    (confirmed posted : bool) : list SurrenderEffect :=
  if loading then []
  else
    match game, boardState with
    | Some g, Some _ =>
        if showSurrender g then handleSurrender gameId confirmed posted
        else []
    | _, _ => []
    end.

End Game.


(** ** utils/avatars.js *)
Module Avatars.

Definition AVATARS : list string :=
  [ "https://api.dicebear.com/7.x/bottts/svg?seed=ship1&backgroundColor=3b82f6";
    "https://api.dicebear.com/7.x/bottts/svg?seed=ship2&backgroundColor=8b5cf6";
    "https://api.dicebear.com/7.x/bottts/svg?seed=ship3&backgroundColor=06b6d4";
    "https://api.dicebear.com/7.x/bottts/svg?seed=ship4&backgroundColor=10b981";
    "https://api.dicebear.com/7.x/bottts/svg?seed=ship5&backgroundColor=f59e0b";
    "https://api.dicebear.com/7.x/bottts/svg?seed=ship6&backgroundColor=ef4444"
  ].

(** [AVATARS[index % AVATARS.length]] for an integer [index]; [%] is the
    remainder with the sign of the dividend, [None] is [undefined]. *)
Definition getAvatarUrl (index : Z) : option string :=
  JS.index AVATARS (Z.rem index (JS.length AVATARS)).

End Avatars.

(** ** utils/api.js *)
Module Api.

(** [localStorage], read by key; [None] is [null]. *)
Definition Storage : Type := string -> option string.

Definition getItem (ls : Storage) (key : string) : option string := ls key.

Definition removeItem (ls : Storage) (key : string) : Storage :=
  fun k => if String.eqb k key then None else ls k.

(** A plain object with string values, read by property name. *)
Definition Object : Type := string -> option string.

(** The empty object literal. *)
Definition emptyObject : Object := fun _ => None.

(** [obj[key] = value]. *)
Definition setProperty (obj : Object) (key value : string) : Object :=
  fun k => if String.eqb k key then Some value else obj k.

(** The template [`Bearer ${token}`]. *)
Definition bearer (token : string) : string := String.append "Bearer " token.

(** A stored token that passes as a condition: present and not the empty
    string. *)
Definition truthyToken (ls : Storage) : option string :=
  match getItem ls "token" with
  | Some token => if String.eqb token "" then None else Some token
  | None => None
  end.

Definition getAuthHeaders (ls : Storage) : Object :=
  match truthyToken ls with
  | Some token => setProperty emptyObject "Authorization" (bearer token)
  | None => emptyObject
  end.

(** The part of a request [config] the interceptor touches. *)
Module Config.
Record t : Type := mk { url : string; headers : Object }.
End Config.

(** The request interceptor. *)
Definition onRequest (ls : Storage) (config : Config.t) : Config.t :=
  match truthyToken ls with
  | Some token =>
      Config.mk (Config.url config)
        (setProperty (Config.headers config) "Authorization" (bearer token))
  | None => config
  end.

(** The response-error interceptor, for an error whose
    [error.response?.status] is [status] ([None]: no response): the storage
    it leaves and the address it sends the browser to, if any.  The error
    itself is always rejected again. *)
Definition onResponseError (ls : Storage) (status : option Z)
    : Storage * option string :=
  match status with
  | Some code =>
      if code =? 401 then (removeItem ls "token", Some "/login")
      else (ls, None)
  | None => (ls, None)
  end.

End Api.

(** ** App.js: route guard and route table *)
Module App.

(** What the guard reads of the auth context. *)
Module AuthUser.
Record t : Type := mk { role : string }.
End AuthUser.

Module Auth.
Record t : Type := mk { user : option AuthUser.t; loading : bool }.
End Auth.

(** The pages of the application. *)
Inductive Page : Type :=
| Login
| AdminLogin
| AdminDashboard
| Lobby
| Game.

(** What a route renders. *)
Inductive Element : Type :=
| LoadingScreen
| Navigate (to : string)
| Render (page : Page).

Definition ProtectedRoute (auth : Auth.t) (children : Element)
    (adminOnly : bool) : Element :=
  if Auth.loading auth then LoadingScreen
  else
    match Auth.user auth with
    | None => Navigate "/login"
    | Some user =>
        if adminOnly && negb (String.eqb (AuthUser.role user) "admin")
        then Navigate "/lobby"
        else children
    end.

(** The route patterns of [AppRoutes], as matched by the router. *)
Inductive Route : Type :=
| route_login
| route_admin_login
| route_admin_dashboard
| route_lobby
| route_game (gameId : string)
| route_root.

Definition AppRoutes (auth : Auth.t) (r : Route) : Element :=
  match r with
  | route_login => Render Login
  | route_admin_login => Render AdminLogin
  | route_admin_dashboard => ProtectedRoute auth (Render AdminDashboard) true
  | route_lobby => ProtectedRoute auth (Render Lobby) false
  | route_game _ => ProtectedRoute auth (Render Game) false
  | route_root => Navigate "/login"
  end.

(** The route a literal [Navigate] target of this file matches. *)
Definition routeOf (path : string) : option Route :=
  if String.eqb path "/login" then Some route_login
  else if String.eqb path "/admin/login" then Some route_admin_login
  else if String.eqb path "/admin/dashboard" then Some route_admin_dashboard
  else if String.eqb path "/lobby" then Some route_lobby
  else if String.eqb path "/" then Some route_root
  else None.

(** Rendering a route and following [Navigate] elements, at most [fuel]
    times; [None] when a target matches no route or the fuel runs out. *)
Fixpoint settle (fuel : nat) (auth : Auth.t) (r : Route) : option Element :=
  match AppRoutes auth r with
  | Navigate to =>
      match fuel with
      | O => None
      | S fuel' =>
          match routeOf to with
          | Some r' => settle fuel' auth r'
          | None => None
          end
      end
  | e => Some e
  end.

End App.

(** ** pages/Lobby.js: creating and joining a game *)
Module Lobby.

(** An entry of the games list, as far as the handlers read it. *)
Module GameEntry.
Record t : Type := mk { id : string; creator_username : string }.
End GameEntry.

(** What a handler does besides computing. *)
Inductive Effect : Type :=
| setLoading (v : bool)
| setShowCreateDialog (v : bool)
| setShowJoinDialog (v : bool)
| setSelectedGame (v : option GameEntry.t)
| post_games (ships : list ShipPlacement.Ship.t)
| post_join (gameId : string) (ships : list ShipPlacement.Ship.t)
| toast_success (msg : string)
| toast_error (msg : string)
| navigate (path : string).

(** How an awaited request ends: resolved with [response.data.id], or
    rejected with [error.response?.data?.detail]. *)
Inductive Outcome : Type :=
| resolved (id : string)
| rejected (detail : option string).

(** [detail || fallback]. *)
Definition orElse (detail : option string) (fallback : string) : string :=
  match detail with
  | Some s => if String.eqb s "" then fallback else s
  | None => fallback
  end.

Definition handleCreateGame (ships : list ShipPlacement.Ship.t)
    (outcome : Outcome) : list Effect :=
  [ setLoading true; post_games ships ]
  ++ match outcome with
     | resolved id =>
         [ toast_success "Game created! Waiting for opponent...";
           setShowCreateDialog false;
           navigate (String.append "/game/" id) ]
     | rejected detail =>
         [ toast_error (orElse detail "Failed to create game") ]
     end
  ++ [ setLoading false ].

Definition handleJoinGame (selectedGame : option GameEntry.t)
    (ships : list ShipPlacement.Ship.t) (outcome : Outcome) : list Effect :=
  match selectedGame with
  | None => []
  | Some game =>
      [ setLoading true; post_join (GameEntry.id game) ships ]
      ++ match outcome with
         | resolved _ =>
             [ toast_success "Joined game successfully!";
               setShowJoinDialog false;
               navigate (String.append "/game/" (GameEntry.id game)) ]
         | rejected detail =>
             [ toast_error (orElse detail "Failed to join game") ]
         end
      ++ [ setLoading false ]
  end.

Definition openJoinDialog (game : GameEntry.t) : list Effect :=
  [ setSelectedGame (Some game); setShowJoinDialog true ].

(** The create dialog: a placement session whose [onComplete] is
    [handleCreateGame]; [outcome] gives how the request for a fleet ends. *)
Definition createDialog (evs : list ShipPlacement.Event)
    (outcome : list ShipPlacement.Ship.t -> Outcome) : list Effect :=
  flat_map (fun ships => handleCreateGame ships (outcome ships))
    (ShipPlacement.submitted ShipPlacement.initialState evs).

(** The join dialog: a placement session whose [onComplete] is
    [handleJoinGame]. *)
Definition joinDialog (selectedGame : option GameEntry.t)
    (evs : list ShipPlacement.Event)
    (outcome : list ShipPlacement.Ship.t -> Outcome) : list Effect :=
  flat_map (fun ships => handleJoinGame selectedGame ships (outcome ships))
    (ShipPlacement.submitted ShipPlacement.initialState evs).

End Lobby.
(** * Properties *)

(** ** Vocabulary of the statements *)

(** The [i]-th cell of a ship laid from [(startX, startY)]. *)
Definition cellAt (startX startY : Z) (orient : string) (i : Z) : JS.Cell :=
  if String.eqb orient "horizontal"
  then (startX, startY + i)
  else (startX + i, startY).

(** A start cell and a size for which the code computes with exact
    integers: JavaScript numbers are doubles, every integer of magnitude
    up to 2^53 is one, and a sum of two of them is exact while it stays in
    that range; an array holds fewer than 2^32 elements.  The run from
    [(x, y)] of [s] cells stays within these limits on both axes. *)
Definition exactRun (x y s : Z) : Prop :=
  - 2 ^ 53 <= x /\ x + s <= 2 ^ 53
  /\ - 2 ^ 53 <= y /\ y + s <= 2 ^ 53
  /\ s < 2 ^ 32.

(** A coordinate inside the 5x5 board. *)
Definition inBoard (c : JS.Cell) : Prop :=
  0 <= fst c <= 4 /\ 0 <= snd c <= 4.

(** No cell of [cells] is a cell of a ship of [placed]. *)
Definition clearOf (placed : list ShipPlacement.Ship.t) (cells : list JS.Cell)
    : Prop :=
  forall ship c,
    In ship placed -> In c (ShipPlacement.Ship.cells ship) -> ~ In c cells.


(** Some move of the list targets the cell [(x, y)]. *)
Definition targeted (moves : list GameBoard.Move.t) (x y : Z) : Prop :=
  exists m, In m moves /\ GameBoard.Move.x m = x /\ GameBoard.Move.y m = y.

(** Some ship of the list occupies the cell [(x, y)]. *)
Definition covered (ships : list GameBoard.Ship.t) (x y : Z) : Prop :=
  exists s, In s ships /\ In (x, y) (GameBoard.Ship.cells s).

(** [s] is the ship struck at [(x, y)]: the first ship of the list that
    occupies the cell. *)
Definition struckShip (ships : list GameBoard.Ship.t) (x y : Z)
    (s : GameBoard.Ship.t) : Prop :=
  exists before after,
    ships = before ++ s :: after
    /\ In (x, y) (GameBoard.Ship.cells s)
    /\ forall s', In s' before -> ~ In (x, y) (GameBoard.Ship.cells s').

(** [m] is the move recorded at [(x, y)]: the first move of the list that
    targets the cell. *)
Definition recordedMove (moves : list GameBoard.Move.t) (x y : Z)
    (m : GameBoard.Move.t) : Prop :=
  exists before after,
    moves = before ++ m :: after
    /\ GameBoard.Move.x m = x /\ GameBoard.Move.y m = y
    /\ forall m', In m' before ->
         ~ (GameBoard.Move.x m' = x /\ GameBoard.Move.y m' = y).

(** The results a move can record. *)
Definition isResult (r : string) : Prop :=
  r = "hit" \/ r = "miss" \/ r = "sunk".

(** The sizes a fleet requires, in placement order: 4, 3, 2. *)
Definition requiredSizes : list Z :=
  map ShipPlacement.ShipKind.size ShipPlacement.SHIPS.

(** No two ships of the list share a cell. *)
Definition shipsDisjoint (placed : list ShipPlacement.Ship.t) : Prop :=
  forall i j si sj,
    i <> j ->
    nth_error placed i = Some si ->
    nth_error placed j = Some sj ->
    forall c, In c (ShipPlacement.Ship.cells si) ->
              ~ In c (ShipPlacement.Ship.cells sj).

(** The invariant of a placement session. *)
Definition sessionInvariant (st : ShipPlacement.State.t) : Prop :=
  let placed := ShipPlacement.State.placedShips st in
  (List.length placed <= 3)%nat
  /\ ShipPlacement.State.currentShipIndex st = JS.length placed
  /\ (forall i ship,
        nth_error placed i = Some ship ->
        nth_error requiredSizes i = Some (ShipPlacement.Ship.size ship))
  /\ (forall ship c,
        In ship placed -> In c (ShipPlacement.Ship.cells ship) -> inBoard c)
  /\ shipsDisjoint placed.

(** A fleet with the three required sizes in order, inside the board,
    whose ships share no cell. *)
Definition completeFleet (fleet : list ShipPlacement.Ship.t) : Prop :=
  map ShipPlacement.Ship.size fleet = [4; 3; 2]
  /\ (forall ship c,
        In ship fleet -> In c (ShipPlacement.Ship.cells ship) -> inBoard c)
  /\ shipsDisjoint fleet.

(** The cells of a fleet, ship after ship. *)
Definition fleetCells (fleet : list ShipPlacement.Ship.t) : list JS.Cell :=
  List.concat (map ShipPlacement.Ship.cells fleet).

(** [ship] is what a click places as the [i]-th ship: the [i]-th kind of
    [SHIPS] laid as a generated run in one of the two orientations. *)
Definition generatedShip (i : nat) (ship : ShipPlacement.Ship.t) : Prop :=
  exists kind x y orient,
    nth_error ShipPlacement.SHIPS i = Some kind
    /\ (orient = "horizontal" \/ orient = "vertical")
    /\ ship = ShipPlacement.Ship.mk (ShipPlacement.ShipKind.size kind)
                (ShipPlacement.getCellsForShip x y
                   (ShipPlacement.ShipKind.size kind) orient)
                (ShipPlacement.ShipKind.name kind).

(** The shape of a placement session: a known orientation, ships that are
    generated runs, and no cell used twice. *)
Definition sessionShape (st : ShipPlacement.State.t) : Prop :=
  (ShipPlacement.State.orientation st = "horizontal"
   \/ ShipPlacement.State.orientation st = "vertical")
  /\ (forall i ship,
        nth_error (ShipPlacement.State.placedShips st) i = Some ship ->
        generatedShip i ship)
  /\ NoDup (fleetCells (ShipPlacement.State.placedShips st)).
(** ** Cell generation *)
Section CellGeneration.

Import JS ShipPlacement.

Lemma seq_shift_map (f : Z -> Cell) (i : Z) (n : nat) :
  map (fun k => f (i + Z.of_nat k)) (seq 1 n)
  = map (fun k => f (i + 1 + Z.of_nat k)) (seq 0 n).
Proof.
  rewrite <- seq_shift, map_map.
  apply map_ext; intro k.
  f_equal; lia.
Qed.

(** With fuel for the remaining iterations the loop exits through its
    condition, having pushed the cells [i .. size-1]. *)
Lemma getCellsForShip_loop_exits (startX startY size : Z) (orient : string) :
  forall (fuel : nat) (i : Z) (acc : list Cell),
    size - i <= Z.of_nat fuel ->
    getCellsForShip_loop fuel startX startY size orient i acc
    = Some (acc ++ map (fun k => cellAt startX startY orient (i + Z.of_nat k))
                       (seq 0 (Z.to_nat (size - i)))).
Proof.
  induction fuel as [|fuel IH]; intros i acc Hfuel; simpl.
  - destruct (Z.ltb_spec i size) as [Hlt|Hge]; [lia|].
    replace (Z.to_nat (size - i)) with O by lia.
    simpl; now rewrite app_nil_r.
  - destruct (Z.ltb_spec i size) as [Hlt|Hge].
    + replace (Z.to_nat (size - i)) with (S (Z.to_nat (size - (i + 1)))) by lia.
      cbn [seq map].
      rewrite seq_shift_map.
      replace (i + Z.of_nat 0) with i by lia.
      unfold cellAt at 1.
      destruct (String.eqb orient "horizontal");
        rewrite IH by lia; rewrite <- app_assoc; reflexivity.
    + replace (Z.to_nat (size - i)) with O by lia.
      simpl; now rewrite app_nil_r.
Qed.

(** [getCellsForShip] in closed form: one cell per index below [size]. *)
Lemma getCellsForShip_closed (startX startY size : Z) (orient : string) :
  getCellsForShip startX startY size orient
  = map (cellAt startX startY orient) (indices size).
Proof.
  unfold getCellsForShip, indices.
  rewrite getCellsForShip_loop_exits by lia.
  rewrite Z.sub_0_r, map_map; reflexivity.
Qed.

Lemma cellAt_injective (startX startY : Z) (orient : string) (i j : Z) :
  cellAt startX startY orient i = cellAt startX startY orient j -> i = j.
Proof.
  unfold cellAt; destruct (String.eqb orient "horizontal");
    intro H; injection H; lia.
Qed.

Lemma indices_length (n : Z) : 0 <= n -> length (indices n) = n.
Proof.
  intro Hn; unfold length, indices.
  rewrite length_map, length_seq; lia.
Qed.

Lemma indices_NoDup (n : Z) : NoDup (indices n).
Proof.
  unfold indices.
  apply Injective_map_NoDup; [|apply seq_NoDup].
  intros a b; lia.
Qed.

Lemma indices_index (n i : Z) : 0 <= i < n -> index (indices n) i = Some i.
Proof.
  intro Hi; unfold index, indices.
  destruct (Z.ltb_spec i 0); [lia|].
  rewrite nth_error_map, nth_error_seq.
  destruct (Nat.ltb_spec (Z.to_nat i) (Z.to_nat n)); [|lia].
  simpl; f_equal; lia.
Qed.

Lemma indices_In (n i : Z) : In i (indices n) <-> 0 <= i < n.
Proof.
  unfold indices; rewrite in_map_iff; split.
  - intros [k [<- Hk]]; apply in_seq in Hk; lia.
  - intro Hi; exists (Z.to_nat i); split; [lia|].
    apply in_seq; lia.
Qed.

Lemma index_map {A B : Type} (f : A -> B) (l : list A) (i : Z) :
  index (map f l) i = option_map f (index l i).
Proof.
  unfold index; destruct (i <? 0); [reflexivity|].
  apply nth_error_map.
Qed.

(** C5: for every start cell and every size [s >= 1] in the range where
    the numbers the loop adds are exact integers and the cells fit an array
    ([exactRun]: the run stays within [-2^53, 2^53] on both axes and is
    shorter than 2^32), and for both orientations, [getCellsForShip]
    returns exactly [s] pairwise-distinct cells, the first one the start
    cell, the [i]-th one [i] steps further along the row (horizontal: [y]
    grows) or along the column (vertical: [x] grows) - a straight run
    without gaps. *)
Theorem getCellsForShip_straight_run (x y s : Z) (orient : string) :
  1 <= s ->
  exactRun x y s ->
  orient = "horizontal" \/ orient = "vertical" ->
  let cells := getCellsForShip x y s orient in
  length cells = s
  /\ NoDup cells
  /\ index cells 0 = Some (x, y)
  /\ (orient = "horizontal" ->
      forall i, 0 <= i < s -> index cells i = Some (x, y + i))
  /\ (orient = "vertical" ->
      forall i, 0 <= i < s -> index cells i = Some (x + i, y)).
Proof.
  intros Hs _ Horient cells; subst cells.
  rewrite getCellsForShip_closed.
  assert (Hidx : forall i, 0 <= i < s ->
            index (map (cellAt x y orient) (indices s)) i
            = Some (cellAt x y orient i)).
  { intros i Hi; rewrite index_map, indices_index by lia; reflexivity. }
  repeat split.
  - unfold length; rewrite length_map.
    apply indices_length; lia.
  - apply Injective_map_NoDup; [|apply indices_NoDup].
    intros i j; apply cellAt_injective.
  - rewrite Hidx by lia.
    unfold cellAt; destruct (String.eqb orient "horizontal");
      do 2 f_equal; lia.
  - intros -> i Hi; rewrite Hidx by lia; reflexivity.
  - intros -> i Hi; rewrite Hidx by lia; reflexivity.
Qed.

Lemma getCellsForShip_straight_run_witness :
  let cells := getCellsForShip 1 2 3 "vertical" in
  length cells = 3
  /\ NoDup cells
  /\ index cells 0 = Some (1, 2)
  /\ ("vertical" = "horizontal" ->
      forall i, 0 <= i < 3 -> index cells i = Some (1, 2 + i))
  /\ ("vertical" = "vertical" ->
      forall i, 0 <= i < 3 -> index cells i = Some (1 + i, 2)).
Proof.
  apply (getCellsForShip_straight_run 1 2 3 "vertical").
  - lia.
  - unfold exactRun; simpl; lia.
  - right; reflexivity.
Defined.

End CellGeneration.

(** ** Placement validation *)
Section Validation.

Import JS ShipPlacement.

(** The guard of the bounds loop fails exactly on the cells of the board. *)
Lemma bounds_guard (x y : Z) :
  (x <? 0) || (x >=? GRID_SIZE) || (y <? 0) || (y >=? GRID_SIZE) = false
  <-> inBoard (x, y).
Proof.
  unfold inBoard, GRID_SIZE; simpl.
  rewrite !orb_false_iff, !Z.ltb_ge, !Z.geb_leb, !Z.leb_gt; lia.
Qed.

Lemma boundsLoop_true (cells : list Cell) :
  boundsLoop cells = true <-> (forall c, In c cells -> inBoard c).
Proof.
  induction cells as [|[x y] rest IH]; simpl.
  - split; [intros _ c []|reflexivity].
  - destruct ((x <? 0) || (x >=? GRID_SIZE) || (y <? 0) || (y >=? GRID_SIZE))
      eqn:Hguard.
    + split; [discriminate|].
      intro Hall; specialize (Hall (x, y) (or_introl eq_refl)).
      apply bounds_guard in Hall; congruence.
    + apply bounds_guard in Hguard.
      rewrite IH; split.
      * intros Hall c [<-|Hc]; auto.
      * intros Hall c Hc; apply Hall; now right.
Qed.

Lemma candidateLoop_true (x y : Z) (cells : list Cell) :
  candidateLoop x y cells = true <-> ~ In (x, y) cells.
Proof.
  induction cells as [|[cx cy] rest IH]; simpl.
  - split; [intros _ []|reflexivity].
  - destruct (Z.eqb_spec x cx) as [->|Hx], (Z.eqb_spec y cy) as [->|Hy]; simpl.
    + split; [discriminate|intro H; exfalso; apply H; now left].
    + rewrite IH; split; [intros H [E|I]; [congruence|auto]|tauto].
    + rewrite IH; split; [intros H [E|I]; [congruence|auto]|tauto].
    + rewrite IH; split; [intros H [E|I]; [congruence|auto]|tauto].
Qed.

Lemma shipCellsLoop_true (shipCells cells : list Cell) :
  shipCellsLoop shipCells cells = true
  <-> (forall c, In c shipCells -> ~ In c cells).
Proof.
  induction shipCells as [|[x y] rest IH]; simpl.
  - split; [intros _ c []|reflexivity].
  - destruct (candidateLoop x y cells) eqn:E.
    + apply candidateLoop_true in E.
      rewrite IH; split.
      * intros H c [<-|Hc]; auto.
      * intros H c Hc; apply H; now right.
    + split; [discriminate|].
      intro H; specialize (H (x, y) (or_introl eq_refl)).
      apply candidateLoop_true in H; congruence.
Qed.

Lemma overlapLoop_true (placed : list Ship.t) (cells : list Cell) :
  overlapLoop placed cells = true <-> clearOf placed cells.
Proof.
  unfold clearOf.
  induction placed as [|ship rest IH]; simpl.
  - split; [intros _ s c []|reflexivity].
  - destruct (shipCellsLoop (Ship.cells ship) cells) eqn:E.
    + rewrite shipCellsLoop_true in E.
      rewrite IH; split.
      * intros H s c [<-|Hs]; [apply E|apply H; assumption].
      * intros H s c Hs; apply H; now right.
    + split; [discriminate|].
      intro H.
      assert (shipCellsLoop (Ship.cells ship) cells = true); [|congruence].
      apply shipCellsLoop_true; intros c Hc; apply (H ship); auto.
Qed.

Lemma isValidPlacement_true (placed : list Ship.t) (cells : list Cell) :
  isValidPlacement placed cells = true
  <-> (forall c, In c cells -> inBoard c) /\ clearOf placed cells.
Proof.
  unfold isValidPlacement.
  rewrite <- boundsLoop_true, <- overlapLoop_true.
  destruct (boundsLoop cells); [tauto|].
  split; [discriminate|intros [H _]; discriminate].
Qed.

(** C1: for every list of placed ships and every candidate cell list,
    [isValidPlacement] returns [true] exactly when every candidate cell is
    inside the 5x5 board and none of them is a cell of a placed ship, and
    returns [false] exactly when that fails. *)
Theorem isValidPlacement_iff (placed : list Ship.t) (cells : list Cell) :
  (isValidPlacement placed cells = true
   <-> (forall c, In c cells -> inBoard c) /\ clearOf placed cells)
  /\ (isValidPlacement placed cells = false
      <-> ~ ((forall c, In c cells -> inBoard c) /\ clearOf placed cells)).
Proof.
  split; [apply isValidPlacement_true|].
  rewrite <- isValidPlacement_true.
  destruct (isValidPlacement placed cells); split; congruence.
Qed.

(** Both rejections and an acceptance, on the spec's example fleet. *)
Example isValidPlacement_examples :
  let battleship :=
    Ship.mk 4 (getCellsForShip 0 0 4 "horizontal") "Battleship" in
  isValidPlacement [battleship] (getCellsForShip 2 0 3 "horizontal") = true
  /\ isValidPlacement [battleship] (getCellsForShip 0 1 3 "horizontal") = false
  /\ isValidPlacement [battleship] (getCellsForShip 3 0 3 "vertical") = false.
Proof. repeat split. Qed.

End Validation.

(** ** Board projection and click handling *)
Section Board.

Import JS GameBoard.

Lemma moveAt_true (x y : Z) (m : Move.t) :
  moveAt x y m = true <-> Move.x m = x /\ Move.y m = y.
Proof.
  unfold moveAt; rewrite andb_true_iff, !Z.eqb_eq; tauto.
Qed.

Lemma cellIs_true (x y : Z) (c : Cell) : cellIs x y c = true <-> c = (x, y).
Proof.
  unfold cellIs; destruct c as [cx cy]; simpl.
  rewrite andb_true_iff, !Z.eqb_eq.
  split; [intros []|intros [= -> ->]]; subst; auto.
Qed.

Lemma shipAt_true (x y : Z) (s : Ship.t) :
  shipAt x y s = true <-> In (x, y) (Ship.cells s).
Proof.
  unfold shipAt; rewrite existsb_exists; split.
  - intros [c [Hc E]]; apply cellIs_true in E; now subst.
  - intro H; exists (x, y); split; [assumption|now apply cellIs_true].
Qed.

Lemma some_moveAt (moves : list Move.t) (x y : Z) :
  existsb (moveAt x y) moves = true <-> targeted moves x y.
Proof.
  unfold targeted; rewrite existsb_exists.
  split; intros [m [Hm E]]; exists m; split; auto; now apply moveAt_true.
Qed.

Lemma some_shipAt (ships : list Ship.t) (x y : Z) :
  existsb (shipAt x y) ships = true <-> covered ships x y.
Proof.
  unfold covered; rewrite existsb_exists.
  split; intros [s [Hs E]]; exists s; split; auto; now apply shipAt_true.
Qed.

(** [find] returns the first element that passes the test. *)
Lemma find_first {A : Type} (f : A -> bool) (l : list A) (a : A) :
  find f l = Some a
  <-> exists before after,
        l = before ++ a :: after /\ f a = true
        /\ forall b, In b before -> f b = false.
Proof.
  induction l as [|h t IH]; simpl.
  - split; [discriminate|].
    intros [[|? ?] [after [E _]]]; discriminate.
  - destruct (f h) eqn:Hh.
    + split.
      * intros [= <-]; exists [], t; repeat split; auto; intros b [].
      * intros [[|b0 before] [after [E [Ha Hb]]]]; simpl in E.
        -- congruence.
        -- injection E as -> ->.
           rewrite (Hb b0) in Hh; [discriminate|now left].
    + rewrite IH; split.
      * intros [before [after [-> [Ha Hb]]]].
        exists (h :: before), after; repeat split; auto.
        intros b [<-|Hin]; auto.
      * intros [[|b0 before] [after [E [Ha Hb]]]]; simpl in E.
        -- injection E as -> ->; congruence.
        -- injection E as -> ->.
           exists before, after; repeat split; auto.
           intros b Hin; apply Hb; now right.
Qed.

Lemma find_none_iff {A : Type} (f : A -> bool) (l : list A) :
  find f l = None <-> existsb f l = false.
Proof.
  induction l as [|h t IH]; simpl; [tauto|].
  destruct (f h); simpl; [split; discriminate|exact IH].
Qed.

Lemma find_recordedMove (moves : list Move.t) (x y : Z) (m : Move.t) :
  find (moveAt x y) moves = Some m <-> recordedMove moves x y m.
Proof.
  unfold recordedMove; rewrite find_first.
  split; intros [before [after [E [H1 H2]]]]; exists before, after.
  - apply moveAt_true in H1; destruct H1; repeat split; auto.
    intros m' Hin Hat; apply moveAt_true in Hat.
    rewrite (H2 m' Hin) in Hat; discriminate.
  - destruct H2 as [H2 H3]; repeat split; auto.
    + now apply moveAt_true.
    + intros b Hin; destruct (moveAt x y b) eqn:Hb; [|reflexivity].
      apply moveAt_true in Hb; exfalso; exact (H3 b Hin Hb).
Qed.

Lemma find_struckShip (ships : list Ship.t) (x y : Z) (s : Ship.t) :
  find (shipAt x y) ships = Some s <-> struckShip ships x y s.
Proof.
  unfold struckShip; rewrite find_first.
  split; intros [before [after [E [H1 H2]]]]; exists before, after;
    repeat split; auto.
  - now apply shipAt_true.
  - intros s' Hin Hat; apply shipAt_true in Hat.
    rewrite (H2 s' Hin) in Hat; discriminate.
  - now apply shipAt_true.
  - intros b Hin; destruct (shipAt x y b) eqn:Hb; [|reflexivity].
    apply shipAt_true in Hb; exfalso; exact (H2 b Hin Hb).
Qed.

Lemma find_moveAt_none (moves : list Move.t) (x y : Z) :
  find (moveAt x y) moves = None <-> ~ targeted moves x y.
Proof.
  rewrite find_none_iff, <- some_moveAt.
  destruct (existsb (moveAt x y) moves); split; congruence.
Qed.

Lemma struckShip_exists (ships : list Ship.t) (x y : Z) :
  covered ships x y -> exists s, struckShip ships x y s.
Proof.
  intro Hc; apply some_shipAt in Hc.
  destruct (find (shipAt x y) ships) as [s|] eqn:E.
  - exists s; now apply find_struckShip.
  - apply find_none_iff in E; congruence.
Qed.

(** The enemy-side branch of [getCellState] reads the moves only. *)
Lemma getCellState_enemy {Callback : Type} (p : Props Callback) (x y : Z) :
  isPlayerBoard p = false ->
  getCellState p x y
  = match find (moveAt x y) (moves p) with
    | Some m =>
        if String.eqb (Move.result m) "miss" then "miss"
        else if String.eqb (Move.result m) "sunk" then "sunk"
        else "hit"
    | None => "empty"
    end.
Proof.
  intro H; unfold getCellState; rewrite H; reflexivity.
Qed.

(** C2: on a board rendered as the opponent's board the projected state of a
    cell is the same whatever fleet is passed in; a cell that no move of the
    viewer targets is ["empty"]; a cell with a recorded move shows that
    move's result (hit, miss or sunk); and the game page renders the enemy
    board that way, with an empty ship list and the viewer's own moves. *)
Theorem enemy_projection_hides_fleet {Callback : Type} :
  (forall (ships1 ships2 : list Ship.t) (moves : list Move.t)
          (cb1 cb2 : option Callback) (d1 d2 : bool) (x y : Z),
      getCellState (mkProps ships1 moves false cb1 d1) x y
      = getCellState (mkProps ships2 moves false cb2 d2) x y)
  /\ (forall (p : Props Callback) (x y : Z),
        isPlayerBoard p = false ->
        ~ targeted (moves p) x y ->
        getCellState p x y = "empty")
  /\ (forall (p : Props Callback) (x y : Z) (m : Move.t),
        isPlayerBoard p = false ->
        recordedMove (moves p) x y m ->
        isResult (Move.result m) ->
        getCellState p x y = Move.result m)
  /\ (forall game user boardState,
        isPlayerBoard (Game.enemyBoard game user boardState) = false
        /\ ships (Game.enemyBoard game user boardState) = []
        /\ moves (Game.enemyBoard game user boardState)
           = Game.BoardState.my_moves boardState).
Proof.
  repeat split.
  - intros p x y Hp Hno.
    rewrite getCellState_enemy by assumption.
    apply find_moveAt_none in Hno; rewrite Hno; reflexivity.
  - intros p x y m Hp Hm Hres.
    rewrite getCellState_enemy by assumption.
    apply find_recordedMove in Hm; rewrite Hm.
    destruct Hres as [E|[E|E]]; rewrite E; reflexivity.
Qed.

(** The enemy projection on a concrete move log: the three results, an
    untargeted cell, and a fleet that makes no difference. *)
Example enemy_projection_states :
  let moves := [Move.mk 0 0 "hit"; Move.mk 1 1 "miss"; Move.mk 2 2 "sunk"] in
  let p := mkProps [] moves false (Some Game.handleMove) false in
  let q := mkProps [Ship.mk [(3, 3); (3, 4)] None] moves false
             (Some Game.handleMove) false in
  getCellState p 0 0 = "hit" /\ getCellState p 1 1 = "miss"
  /\ getCellState p 2 2 = "sunk" /\ getCellState p 3 3 = "empty"
  /\ getCellState q 3 3 = "empty".
Proof. repeat split. Qed.

(** A move log in which the cell [(x, y)] is targeted at most once has its
    only move there as the recorded one. *)
Lemma recordedMove_unique (moves : list Move.t) (x y : Z) (m : Move.t) :
  In m moves -> Move.x m = x -> Move.y m = y ->
  (forall m', In m' moves -> Move.x m' = x -> Move.y m' = y -> m' = m) ->
  recordedMove moves x y m.
Proof.
  intros Hin Hx Hy Huniq.
  destruct (find (moveAt x y) moves) as [m0|] eqn:E.
  - pose proof E as E'; apply find_some in E'; destruct E' as [Hin0 Hat].
    apply moveAt_true in Hat; destruct Hat.
    rewrite (Huniq m0) in E by assumption.
    now apply find_recordedMove.
  - apply find_moveAt_none in E; exfalso; apply E.
    exists m; auto.
Qed.

(** C3: for every move list and every cell that already appears in it,
    [handleCellClick] returns without invoking [onCellClick], and so does a
    click on the grid button of that cell. *)
Theorem handleCellClick_no_retarget {Callback : Type} (p : Props Callback)
    (x y : Z) :
  targeted (moves p) x y ->
  handleCellClick p x y = []
  /\ (forall k b, nth_error (render p) k = Some b ->
                  Button.x b = x -> Button.y b = y -> click b = []).
Proof.
  intro Ht; apply some_moveAt in Ht.
  assert (H : handleCellClick p x y = []).
  { unfold handleCellClick; rewrite Ht.
    destruct (disabled p), (onCellClick p); reflexivity. }
  split; [exact H|].
  intros k b Hk Hx Hy.
  apply nth_error_In in Hk; unfold render in Hk.
  apply in_map_iff in Hk; destruct Hk as [i [<- _]].
  simpl in Hx, Hy; unfold click; simpl.
  rewrite Hx, Hy, H; now destruct (disabled p).
Qed.

Lemma handleCellClick_no_retarget_witness :
  handleCellClick
    (mkProps [] [Move.mk 1 2 "hit"] false (Some Game.handleMove) false) 1 2
  = []
  /\ (forall k b,
        nth_error
          (render (mkProps [] [Move.mk 1 2 "hit"] false
                     (Some Game.handleMove) false)) k = Some b ->
        Button.x b = 1 -> Button.y b = 2 -> click b = []).
Proof.
  apply (handleCellClick_no_retarget
           (mkProps [] [Move.mk 1 2 "hit"] false (Some Game.handleMove) false)).
  exists (Move.mk 1 2 "hit"); simpl; auto.
Defined.

(** The own-side cases of [getCellState], for any board rendered as the
    player's. *)
Lemma own_projection_cases {Callback : Type} (p : Props Callback)
    (x y : Z) :
  isPlayerBoard p = true ->
  (targeted (moves p) x y -> ~ covered (ships p) x y ->
   getCellState p x y = "miss")
  /\ (targeted (moves p) x y -> covered (ships p) x y ->
      exists s, struckShip (ships p) x y s
                /\ (Ship.sunk s = Some true -> getCellState p x y = "sunk")
                /\ (Ship.sunk s <> Some true -> getCellState p x y = "hit")
                /\ (getCellState p x y = "sunk" <-> Ship.sunk s = Some true))
  /\ (~ targeted (moves p) x y -> covered (ships p) x y ->
      getCellState p x y = "ship")
  /\ (~ targeted (moves p) x y -> ~ covered (ships p) x y ->
      getCellState p x y = "empty").
Proof.
  intro Hown; unfold getCellState; rewrite Hown.
  repeat split.
  - intros Ht Hc.
    destruct (find (moveAt x y) (moves p)) eqn:Em;
      [|apply find_moveAt_none in Em; contradiction].
    destruct (existsb (shipAt x y) (ships p)) eqn:Es; [|reflexivity].
    apply some_shipAt in Es; contradiction.
  - intros Ht Hc.
    destruct (find (moveAt x y) (moves p)) eqn:Em;
      [|apply find_moveAt_none in Em; contradiction].
    destruct (struckShip_exists _ _ _ Hc) as [s Hs].
    apply some_shipAt in Hc; rewrite Hc.
    exists s; split; [exact Hs|].
    apply find_struckShip in Hs; rewrite Hs; simpl.
    destruct (Ship.sunk s) as [[|]|]; repeat split;
      try reflexivity; try discriminate; try congruence.
  - intros Ht Hc.
    apply find_moveAt_none in Ht; rewrite Ht.
    apply some_shipAt in Hc; rewrite Hc; reflexivity.
  - intros Ht Hc.
    apply find_moveAt_none in Ht; rewrite Ht.
    destruct (existsb (shipAt x y) (ships p)) eqn:Es; [|reflexivity].
    apply some_shipAt in Es; contradiction.
Qed.

(** C6: on a board rendered as the player's own ([isPlayerBoard] true) a
    targeted cell that no ship occupies is ["miss"]; a targeted cell that a
    ship occupies is ["sunk"] when the sunk flag of the ship struck there is
    set and ["hit"] when it is not; an untargeted ship cell is ["ship"]; any
    other cell is ["empty"].  The game page renders the "Your Fleet" board
    that way, from the viewer's own ships ([my_ships]) and the moves made
    against the viewer ([opponent_moves]): there a cell the opponent
    targeted shows miss, hit or sunk as above, every other cell of the
    viewer's ships shows ["ship"], and the rest is ["empty"]. *)
Theorem own_projection_overlay {Callback : Type} :
  (forall (p : Props Callback) (x y : Z),
      isPlayerBoard p = true ->
      (targeted (moves p) x y -> ~ covered (ships p) x y ->
       getCellState p x y = "miss")
      /\ (targeted (moves p) x y -> covered (ships p) x y ->
          exists s,
            struckShip (ships p) x y s
            /\ (Ship.sunk s = Some true -> getCellState p x y = "sunk")
            /\ (Ship.sunk s <> Some true -> getCellState p x y = "hit")
            /\ (getCellState p x y = "sunk" <-> Ship.sunk s = Some true))
      /\ (~ targeted (moves p) x y -> covered (ships p) x y ->
          getCellState p x y = "ship")
      /\ (~ targeted (moves p) x y -> ~ covered (ships p) x y ->
          getCellState p x y = "empty"))
  /\ (forall boardState,
        isPlayerBoard (Game.ownBoard boardState) = true
        /\ ships (Game.ownBoard boardState)
           = Game.BoardState.my_ships boardState
        /\ moves (Game.ownBoard boardState)
           = Game.BoardState.opponent_moves boardState)
  /\ (forall boardState (x y : Z),
        let own := Game.ownBoard boardState in
        let incoming := Game.BoardState.opponent_moves boardState in
        let fleet := Game.BoardState.my_ships boardState in
        (targeted incoming x y -> ~ covered fleet x y ->
         getCellState own x y = "miss")
        /\ (targeted incoming x y -> covered fleet x y ->
            exists s,
              struckShip fleet x y s
              /\ (Ship.sunk s = Some true -> getCellState own x y = "sunk")
              /\ (Ship.sunk s <> Some true -> getCellState own x y = "hit")
              /\ (getCellState own x y = "sunk"
                  <-> Ship.sunk s = Some true))
        /\ (~ targeted incoming x y -> covered fleet x y ->
            getCellState own x y = "ship")
        /\ (~ targeted incoming x y -> ~ covered fleet x y ->
            getCellState own x y = "empty")).
Proof.
  split; [|split].
  - intros p x y; apply own_projection_cases.
  - intro boardState; repeat split.
  - intros boardState x y own incoming fleet.
    apply (own_projection_cases (Game.ownBoard boardState) x y).
    reflexivity.
Qed.

Lemma own_projection_overlay_witness :
  let p := mkProps [Ship.mk [(0, 0); (0, 1)] (Some true); Ship.mk [(2, 2)] None]
             [Move.mk 0 1 "sunk"; Move.mk 4 4 "miss"] true
             (@None Game.Callback) true in
  (targeted (moves p) 0 1 -> ~ covered (ships p) 0 1 ->
   getCellState p 0 1 = "miss")
  /\ (targeted (moves p) 0 1 -> covered (ships p) 0 1 ->
      exists s, struckShip (ships p) 0 1 s
                /\ (Ship.sunk s = Some true -> getCellState p 0 1 = "sunk")
                /\ (Ship.sunk s <> Some true -> getCellState p 0 1 = "hit")
                /\ (getCellState p 0 1 = "sunk" <-> Ship.sunk s = Some true))
  /\ (~ targeted (moves p) 0 1 -> covered (ships p) 0 1 ->
      getCellState p 0 1 = "ship")
  /\ (~ targeted (moves p) 0 1 -> ~ covered (ships p) 0 1 ->
      getCellState p 0 1 = "empty").
Proof.
  apply (proj1 (@own_projection_overlay Game.Callback)
           (mkProps
              [Ship.mk [(0, 0); (0, 1)] (Some true); Ship.mk [(2, 2)] None]
              [Move.mk 0 1 "sunk"; Move.mk 4 4 "miss"] true
              (@None Game.Callback) true) 0 1).
  reflexivity.
Defined.

(** The page's own board on a concrete board state: the viewer's ships
    overlaid with the opponent's moves, whatever the viewer's own moves. *)
Example own_board_of_page :
  let boardState :=
    Game.BoardState.mk
      [Ship.mk [(0, 0); (0, 1)] (Some true);
       Ship.mk [(2, 2); (2, 3)] (Some false)]
      [Move.mk 0 1 "sunk"; Move.mk 2 2 "hit"; Move.mk 4 4 "miss"]
      [Move.mk 2 3 "miss"; Move.mk 3 3 "hit"] in
  let own := Game.ownBoard boardState in
  getCellState own 0 1 = "sunk" /\ getCellState own 2 2 = "hit"
  /\ getCellState own 4 4 = "miss" /\ getCellState own 2 3 = "ship"
  /\ getCellState own 0 0 = "ship" /\ getCellState own 3 3 = "empty".
Proof. repeat split. Qed.

(** The four projected states of the own board, on a concrete board. *)
Example own_projection_states :
  let p := mkProps [Ship.mk [(0, 0); (0, 1)] (Some true);
                    Ship.mk [(2, 2); (2, 3)] (Some false)]
             [Move.mk 0 1 "sunk"; Move.mk 2 2 "hit"; Move.mk 4 4 "miss"] true
             (@None Game.Callback) true in
  getCellState p 0 1 = "sunk" /\ getCellState p 2 2 = "hit"
  /\ getCellState p 4 4 = "miss" /\ getCellState p 2 3 = "ship"
  /\ getCellState p 3 3 = "empty".
Proof. repeat split. Qed.

(** The buttons of the grid, by index. *)
Lemma render_button {Callback : Type} (p : Props Callback)
    (b : Button.t Callback) :
  In b (render p) ->
  exists i, 0 <= i < 25
    /\ b = Button.mk (i / 5) (i mod 5) (getCellState p (i / 5) (i mod 5))
             (handleCellClick p (i / 5) (i mod 5)) (disabled p).
Proof.
  unfold render; intro Hb.
  apply in_map_iff in Hb; destruct Hb as [i [<- Hi]].
  apply indices_In in Hi; change (gridSize * gridSize) with 25 in Hi.
  exists i; split; [assumption|].
  unfold gridSize; rewrite Z.rem_mod_nonneg by lia; reflexivity.
Qed.

Lemma handleCellClick_calls {Callback : Type} (p : Props Callback) (x y : Z) :
  Forall (fun c => match c with call _ cx cy => cx = x /\ cy = y end)
    (handleCellClick p x y).
Proof.
  unfold handleCellClick.
  destruct (disabled p), (onCellClick p); try constructor.
  destruct (existsb (moveAt x y) (moves p)); repeat constructor.
Qed.

(** C9: the grid has one button per index 0..24, the button of index [i]
    carries the coordinates [(floor(i/5), i mod 5)], every one of them lies
    in [0,4]x[0,4], so every pair a click passes to [onCellClick] is in
    bounds, and so is every move the game page posts. *)
Theorem grid_targets_in_bounds {Callback : Type} (p : Props Callback) :
  map (fun b => (Button.x b, Button.y b)) (render p)
  = map (fun i => (i / 5, i mod 5)) (indices 25)
  /\ Forall (fun b => inBoard (Button.x b, Button.y b)
                     /\ Button.onClick b
                        = handleCellClick p (Button.x b) (Button.y b))
       (render p)
  /\ (forall k, Forall (fun c => match c with call _ x y => inBoard (x, y) end)
                  (clickAt p k))
  /\ (forall gameId loading game boardState user k,
        Forall (fun r => match r with
                         | Game.post_move _ x y => inBoard (x, y)
                         end)
          (Game.clickEnemyCell gameId
             (Game.render loading game boardState user) k)).
Proof.
  assert (Hbtn : forall C (q : Props C) (b : Button.t C), In b (render q) ->
            inBoard (Button.x b, Button.y b)
            /\ Button.onClick b = handleCellClick q (Button.x b) (Button.y b)).
  { intros C q b Hb; apply render_button in Hb.
    destruct Hb as [i [Hi ->]]; simpl; split; [|reflexivity].
    unfold inBoard; simpl.
    pose proof (Z.div_pos i 5); pose proof (Z.mod_pos_bound i 5).
    assert (i / 5 < 5) by (apply Z.div_lt_upper_bound; lia).
    lia. }
  assert (Hclick : forall C (q : Props C) k,
            Forall (fun c => match c with call _ x y => inBoard (x, y) end)
              (clickAt q k)).
  { intros C q k; unfold clickAt.
    destruct (nth_error (render q) k) as [b|] eqn:Hk; [|constructor].
    apply nth_error_In, Hbtn in Hk; destruct Hk as [Hin Hon].
    unfold click; destruct (Button.disabled b); [constructor|].
    rewrite Hon.
    eapply Forall_impl; [|apply handleCellClick_calls].
    intros [f cx cy] [-> ->]; exact Hin. }
  split; [|split; [|split]].
  - unfold render; rewrite map_map; apply map_ext_in.
    intros i Hi; apply indices_In in Hi; simpl.
    unfold gridSize; rewrite Z.rem_mod_nonneg by lia; reflexivity.
  - apply Forall_forall; intros b Hb; exact (Hbtn _ p b Hb).
  - apply Hclick.
  - intros gameId loading game boardState user k.
    unfold Game.clickEnemyCell.
    destruct (Game.render loading game boardState user) as [|[[own enemy]|]];
      try constructor.
    specialize (Hclick _ enemy k).
    induction Hclick as [|[[] cx cy] rest Hc _ IH]; simpl; constructor; auto.
Qed.

End Board.

(** ** Turn and terminal-state gating on the game page *)
Section Gating.

Import JS GameBoard.

Lemma disabled_board_silent {Callback : Type} (p : Props Callback) :
  disabled p = true ->
  (forall x y, handleCellClick p x y = []) /\ (forall k, clickAt p k = []).
Proof.
  intro Hd; split.
  - intros x y; unfold handleCellClick; rewrite Hd; reflexivity.
  - intro k; unfold clickAt.
    destruct (nth_error (render p) k) as [b|] eqn:Hk; [|reflexivity].
    apply nth_error_In in Hk; unfold render in Hk.
    apply in_map_iff in Hk; destruct Hk as [i [<- _]].
    unfold click; simpl; rewrite Hd; reflexivity.
Qed.

Lemma strictEq_true (a : option string) (b : string) :
  Game.strictEq a b = true <-> a = Some b.
Proof.
  destruct a as [s|]; simpl; [|split; discriminate].
  rewrite String.eqb_eq; split; congruence.
Qed.

(** C4: whenever [game.current_turn] differs from the viewer's id or
    [game.state] is ["finished"], the enemy board is disabled, its click
    handler invokes nothing for any cell, and no click on any cell of the
    rendered page posts a move. *)
Theorem no_move_out_of_turn (game : Game.GameData.t) (user : Game.User.t) :
  Game.GameData.current_turn game <> Some (Game.User.id user)
  \/ Game.GameData.state game = "finished" ->
  (forall boardState,
      disabled (Game.enemyBoard game user boardState) = true)
  /\ (forall boardState x y,
        handleCellClick (Game.enemyBoard game user boardState) x y = [])
  /\ (forall gameId loading boardState k,
        Game.clickEnemyCell gameId
          (Game.render loading (Some game) boardState user) k = []).
Proof.
  intro Hgate.
  assert (Hd : forall boardState,
            disabled (Game.enemyBoard game user boardState) = true).
  { intro boardState; simpl; unfold Game.isMyTurn, Game.isFinished.
    destruct Hgate as [Hturn|Hfin].
    - destruct (Game.strictEq _ _) eqn:E; [|reflexivity].
      apply strictEq_true in E; contradiction.
    - rewrite Hfin; simpl; apply orb_true_r. }
  split; [exact Hd|split].
  - intros boardState x y.
    apply (disabled_board_silent _ (Hd boardState)).
  - intros gameId loading boardState k.
    unfold Game.render, Game.clickEnemyCell.
    destruct loading; [reflexivity|].
    destruct boardState as [b|]; [|reflexivity].
    destruct (negb (Game.isWaiting game)); [|reflexivity].
    destruct (disabled_board_silent _ (Hd b)) as [_ Hk].
    rewrite Hk; reflexivity.
Qed.

Lemma no_move_out_of_turn_witness :
  let game :=
    Game.GameData.mk "alice" (Some "bob") "in_progress" (Some "bob") None in
  let user := Game.User.mk "alice" in
  (forall boardState,
      disabled (Game.enemyBoard game user boardState) = true)
  /\ (forall boardState x y,
        handleCellClick (Game.enemyBoard game user boardState) x y = [])
  /\ (forall gameId loading boardState k,
        Game.clickEnemyCell gameId
          (Game.render loading (Some game) boardState user) k = []).
Proof.
  apply (no_move_out_of_turn
           (Game.GameData.mk "alice" (Some "bob") "in_progress" (Some "bob")
              None)
           (Game.User.mk "alice")).
  left; simpl; discriminate.
Defined.

(** In turn and before the end, a click on a fresh cell does post the move. *)
Example move_in_turn :
  let game :=
    Game.GameData.mk "alice" (Some "bob") "in_progress" (Some "alice") None in
  let boardState :=
    Game.BoardState.mk [] [] [Move.mk 0 0 "miss"] in
  let view :=
    Game.render false (Some game) (Some boardState) (Game.User.mk "alice") in
  Game.clickEnemyCell "g1" view 7 = [Game.post_move "g1" 1 2]
  /\ Game.clickEnemyCell "g1" view 0 = []
  /\ Game.clickOwnCell "g1" view 7 = [].
Proof. repeat split. Qed.

End Gating.

(** ** The placement session *)
Section Session.

Import JS ShipPlacement.

(** What one event does to the placed ships and the ship index: nothing, a
    reset, or the append of a validated ship of the current kind. *)
Lemma step_cases (st : State.t) (ev : Event) :
  (State.placedShips (step st ev) = State.placedShips st
   /\ State.currentShipIndex (step st ev) = State.currentShipIndex st)
  \/ (State.placedShips (step st ev) = []
      /\ State.currentShipIndex (step st ev) = 0)
  \/ (exists kind x y,
        let cells :=
          getCellsForShip x y (ShipKind.size kind) (State.orientation st) in
        currentShip st = Some kind
        /\ isValidPlacement (State.placedShips st) cells = true
        /\ State.placedShips (step st ev)
           = State.placedShips st
             ++ [Ship.mk (ShipKind.size kind) cells (ShipKind.name kind)]
        /\ State.currentShipIndex (step st ev)
           = State.currentShipIndex st + 1).
Proof.
  destruct ev as [x y|x y| | | |]; unfold step, handle.
  - unfold handleCellClick.
    destruct (State.currentShipIndex st >=? length SHIPS); [left; auto|].
    destruct (currentShip st) as [kind|] eqn:Hkind; [|left; auto].
    destruct (isValidPlacement (State.placedShips st)
                (getCellsForShip x y (ShipKind.size kind)
                   (State.orientation st))) eqn:Hvalid; [|left; auto].
    right; right; exists kind, x, y; simpl.
    destruct (State.currentShipIndex st =? _); simpl; auto.
  - unfold handleCellHover.
    destruct (State.currentShipIndex st >=? length SHIPS); [left; auto|].
    destruct (currentShip st); left; auto.
  - left; auto.
  - left; auto.
  - right; left; auto.
  - unfold handleComplete.
    destruct (negb _); left; auto.
Qed.

Lemma currentShip_some (st : State.t) (kind : ShipKind.t) :
  currentShip st = Some kind ->
  0 <= State.currentShipIndex st < 3
  /\ nth_error requiredSizes (Z.to_nat (State.currentShipIndex st))
     = Some (ShipKind.size kind).
Proof.
  unfold currentShip, index, requiredSizes.
  destruct (Z.ltb_spec (State.currentShipIndex st) 0); [discriminate|].
  intro Hk; split.
  - pose proof (nth_error_Some SHIPS
                  (Z.to_nat (State.currentShipIndex st))) as HS.
    rewrite Hk in HS; simpl in HS.
    assert (Z.to_nat (State.currentShipIndex st) < 3)%nat
      by (apply HS; discriminate).
    lia.
  - rewrite nth_error_map, Hk; reflexivity.
Qed.

Lemma nth_error_snoc {A : Type} (l : list A) (a b : A) (i : nat) :
  nth_error (l ++ [a]) i = Some b ->
  (i < List.length l)%nat /\ nth_error l i = Some b
  \/ i = List.length l /\ b = a.
Proof.
  intro H; destruct (Nat.lt_ge_cases i (List.length l)) as [Hlt|Hge].
  - left; split; [assumption|]; now rewrite nth_error_app1 in H.
  - right; rewrite nth_error_app2 in H by assumption.
    destruct (i - List.length l)%nat as [|[|n]] eqn:E; simpl in H;
      try discriminate.
    split; [lia|congruence].
Qed.

Lemma sessionInvariant_empty (st : State.t) :
  State.placedShips st = [] -> State.currentShipIndex st = 0 ->
  sessionInvariant st.
Proof.
  intros Hp Hi; unfold sessionInvariant, shipsDisjoint.
  rewrite Hp, Hi; simpl.
  split; [lia|split; [reflexivity|split; [|split]]].
  - intros [|i] ship; discriminate.
  - intros ship c [].
  - intros [|i] j si sj _; discriminate.
Qed.

Lemma sessionInvariant_step (st : State.t) (ev : Event) :
  sessionInvariant st -> sessionInvariant (step st ev).
Proof.
  intros (Hlen & Hidx & Hsizes & Hboard & Hdisj).
  destruct (step_cases st ev) as [[Hp Hi]|[[Hp Hi]|Hnew]].
  - unfold sessionInvariant; rewrite Hp, Hi; auto 6.
  - now apply sessionInvariant_empty.
  - destruct Hnew as (kind & x & y & Hkind & Hvalid & Hp & Hi).
    apply currentShip_some in Hkind; destruct Hkind as [Hrange Hsize].
    apply isValidPlacement_true in Hvalid; destruct Hvalid as [Hin Hclear].
    unfold length in Hidx.
    unfold sessionInvariant; rewrite Hp, Hi; clear Hp Hi.
    set (new := Ship.mk _ _ _) in *.
    split; [|split; [|split; [|split]]].
    + rewrite length_app; simpl; lia.
    + unfold length; rewrite length_app; simpl; lia.
    + intros i ship Hnth.
      apply nth_error_snoc in Hnth; destruct Hnth as [[_ Hnth]|[-> ->]].
      * now apply Hsizes.
      * replace (List.length (State.placedShips st))
          with (Z.to_nat (State.currentShipIndex st)) by lia.
        exact Hsize.
    + intros ship c Hship Hc.
      apply in_app_or in Hship; destruct Hship as [Hold|[<-|[]]].
      * exact (Hboard ship c Hold Hc).
      * apply Hin; exact Hc.
    + intros i j si sj Hij Hsi Hsj c Hc Hc'.
      apply nth_error_snoc in Hsi, Hsj.
      destruct Hsi as [[_ Hsi]|[-> ->]], Hsj as [[_ Hsj]|[-> ->]].
      * exact (Hdisj i j si sj Hij Hsi Hsj c Hc Hc').
      * apply nth_error_In in Hsi.
        exact (Hclear si c Hsi Hc Hc').
      * apply nth_error_In in Hsj.
        exact (Hclear sj c Hsj Hc' Hc).
      * congruence.
Qed.

Lemma sessionInvariant_run (evs : list Event) :
  forall st, sessionInvariant st -> sessionInvariant (run st evs).
Proof.
  induction evs as [|ev evs IH]; intros st Hst; simpl; [assumption|].
  apply IH, sessionInvariant_step, Hst.
Qed.

(** C10: after any sequence of events of the placement component (cell
    clicks and resets, and hovers, rotations and completion attempts as
    well) the placed-ships list holds between 0 and 3 ships, the i-th placed
    ship has the i-th required size (4, then 3, then 2), every cell of every
    placed ship lies within the 5x5 board, no two placed ships share a cell,
    and [currentShipIndex] equals the number of placed ships. *)
Theorem placement_session_invariant (evs : list Event) :
  let st := run initialState evs in
  let placed := State.placedShips st in
  (0 <= List.length placed <= 3)%nat
  /\ State.currentShipIndex st = length placed
  /\ (forall i ship,
        nth_error placed i = Some ship ->
        nth_error [4; 3; 2] i = Some (Ship.size ship))
  /\ (forall ship c, In ship placed -> In c (Ship.cells ship) -> inBoard c)
  /\ (forall i j si sj,
        i <> j ->
        nth_error placed i = Some si ->
        nth_error placed j = Some sj ->
        forall c, In c (Ship.cells si) -> ~ In c (Ship.cells sj)).
Proof.
  destruct (sessionInvariant_run evs initialState)
    as (Hlen & Hidx & Hsizes & Hboard & Hdisj).
  - now apply sessionInvariant_empty.
  - split; [lia|split; [exact Hidx|split; [exact Hsizes|split]]].
    + exact Hboard.
    + exact Hdisj.
Qed.

(** A session that places the spec's example fleet, with a rejected click,
    a hover and a rotation on the way. *)
Example placement_session_example :
  let evs := [CellClick 0 0; CellClick 0 1; CellHover 2 0; CellClick 2 0;
              Rotate; CellClick 3 3; CellClick 4 4] in
  map Ship.cells (State.placedShips (run initialState evs))
  = [[(0, 0); (0, 1); (0, 2); (0, 3)]; [(2, 0); (2, 1); (2, 2)];
     [(3, 3); (4, 3)]]
  /\ State.currentShipIndex (run initialState evs) = 3.
Proof. split; reflexivity. Qed.

(** C7: in every placement state, a click whose generated cells fail
    validation only raises the error toast: the state of the next render
    is the state before the click, the same click from it is rejected
    in the same way, and so is any number of repetitions. *)
Theorem rejection_leaves_state (st : State.t) (x y : Z) (kind : ShipKind.t) :
  currentShip st = Some kind ->
  isValidPlacement (State.placedShips st)
    (getCellsForShip x y (ShipKind.size kind) (State.orientation st)) = false ->
  handleCellClick st x y
  = [ toast_error
        "Invalid placement! Ships cannot overlap or go out of bounds." ]
  /\ step st (CellClick x y) = st
  /\ handleCellClick (step st (CellClick x y)) x y = handleCellClick st x y
  /\ (forall n, run st (repeat (CellClick x y) n) = st).
Proof.
  intros Hkind Hvalid.
  destruct (currentShip_some st kind Hkind) as [Hrange _].
  assert (Hact : handleCellClick st x y = [ toast_error
      "Invalid placement! Ships cannot overlap or go out of bounds." ]).
  { unfold handleCellClick.
    destruct (Z.geb_spec (State.currentShipIndex st) (length SHIPS)) as [Hge|_].
    - unfold length in Hge; simpl in Hge; lia.
    - rewrite Hkind, Hvalid; reflexivity. }
  assert (Hstep : step st (CellClick x y) = st).
  { unfold step, handle; rewrite Hact; reflexivity. }
  repeat split.
  - exact Hact.
  - exact Hstep.
  - rewrite Hstep; reflexivity.
  - induction n as [|n IH]; simpl; [reflexivity|].
    rewrite Hstep; exact IH.
Qed.

Lemma rejection_leaves_state_witness :
  let st :=
    State.mk [Ship.mk 4 [(0, 0); (0, 1); (0, 2); (0, 3)] "Battleship"] 1
      "horizontal" [] true in
  handleCellClick st 0 1
  = [ toast_error
        "Invalid placement! Ships cannot overlap or go out of bounds." ]
  /\ step st (CellClick 0 1) = st
  /\ handleCellClick (step st (CellClick 0 1)) 0 1 = handleCellClick st 0 1
  /\ (forall n, run st (repeat (CellClick 0 1) n) = st).
Proof.
  apply (rejection_leaves_state
           (State.mk [Ship.mk 4 [(0, 0); (0, 1); (0, 2); (0, 3)] "Battleship"]
              1 "horizontal" [] true)
           0 1 (ShipKind.mk 3 "Cruiser" "from-green-500 to-green-600"));
    reflexivity.
Defined.

(** Only [handleComplete] calls [onComplete], with the placed ships, and
    only when three ships are placed. *)
Lemma fleetsOf_handle (st : State.t) (ev : Event) :
  fleetsOf (handle st ev) = []
  \/ (fleetsOf (handle st ev) = [State.placedShips st]
      /\ List.length (State.placedShips st) = 3%nat).
Proof.
  destruct ev as [x y|x y| | | |]; unfold handle; try (left; reflexivity).
  - left; unfold handleCellClick.
    destruct (_ >=? _); [reflexivity|].
    destruct (currentShip st); [|reflexivity].
    destruct (negb _); [reflexivity|]; simpl.
    destruct (_ =? _); reflexivity.
  - left; unfold handleCellHover.
    destruct (_ >=? _); [reflexivity|].
    destruct (currentShip st); reflexivity.
  - unfold handleComplete, length.
    destruct (Z.eqb_spec (Z.of_nat (List.length (State.placedShips st)))
                (Z.of_nat (List.length SHIPS))) as [E|E]; simpl.
    + right; split; [reflexivity|]; simpl in E; lia.
    + left; reflexivity.
Qed.

Lemma complete_fleet_sizes (st : State.t) :
  sessionInvariant st ->
  List.length (State.placedShips st) = 3%nat ->
  map Ship.size (State.placedShips st) = [4; 3; 2].
Proof.
  intros (_ & _ & Hsizes & _) Hlen.
  destruct (State.placedShips st) as [|a [|b [|c [|d rest]]]];
    try discriminate.
  pose proof (Hsizes 0%nat a eq_refl) as Ha.
  pose proof (Hsizes 1%nat b eq_refl) as Hb.
  pose proof (Hsizes 2%nat c eq_refl) as Hc.
  simpl in Ha, Hb, Hc; simpl; congruence.
Qed.

Lemma submitted_sizes (evs : list Event) :
  forall st, sessionInvariant st ->
    Forall (fun fleet => map Ship.size fleet = [4; 3; 2]) (submitted st evs).
Proof.
  induction evs as [|ev evs IH]; intros st Hst; simpl; [constructor|].
  apply Forall_app; split.
  - destruct (fleetsOf_handle st ev) as [->|[-> Hlen]]; [constructor|].
    constructor; [|constructor].
    now apply complete_fleet_sizes.
  - apply IH, sessionInvariant_step, Hst.
Qed.

(** C8: in every state a placement session can reach, [handleComplete]
    calls [onComplete] - with the placed ships - exactly when three ships
    are placed, which is exactly when their sizes are 4, 3, 2 in that order,
    and otherwise only raises the error toast; every fleet handed to
    [onComplete] in the course of a session has exactly these three sizes. *)
Theorem fleet_submitted_iff_complete (evs : list Event) :
  let st := run initialState evs in
  let placed := State.placedShips st in
  (handleComplete st = [onComplete placed] <-> List.length placed = 3%nat)
  /\ (handleComplete st
      = [toast_error "Please place all ships before starting"]
      <-> List.length placed <> 3%nat)
  /\ (handleComplete st = [onComplete placed]
      <-> map Ship.size placed = [4; 3; 2])
  /\ (forall fleet, In (onComplete fleet) (handleComplete st) ->
                    map Ship.size fleet = [4; 3; 2])
  /\ Forall (fun fleet => map Ship.size fleet = [4; 3; 2])
       (submitted initialState evs).
Proof.
  intros st placed.
  assert (Hinv : sessionInvariant st).
  { apply sessionInvariant_run; now apply sessionInvariant_empty. }
  assert (Hthree : handleComplete st = [onComplete placed]
                   <-> List.length placed = 3%nat).
  { unfold handleComplete, length; fold placed.
    destruct (Z.eqb_spec (Z.of_nat (List.length placed))
                (Z.of_nat (List.length SHIPS))) as [E|E];
      simpl in E |- *; split; try discriminate; try reflexivity; lia. }
  assert (Hnot : handleComplete st
                 = [toast_error "Please place all ships before starting"]
                 <-> List.length placed <> 3%nat).
  { unfold handleComplete, length; fold placed.
    destruct (Z.eqb_spec (Z.of_nat (List.length placed))
                (Z.of_nat (List.length SHIPS))) as [E|E];
      simpl in E |- *; split; try discriminate; try reflexivity; lia. }
  assert (Hsz : List.length placed = 3%nat
                <-> map Ship.size placed = [4; 3; 2]).
  { split; [now apply complete_fleet_sizes|].
    intro E; apply (f_equal (@List.length Z)) in E.
    now rewrite length_map in E. }
  split; [exact Hthree|split; [exact Hnot|split; [|split]]].
  - rewrite Hthree; exact Hsz.
  - intros fleet Hin.
    destruct (Nat.eq_dec (List.length placed) 3) as [E|E].
    + apply Hthree in E; rewrite E in Hin.
      destruct Hin as [[= <-]|[]].
      apply Hsz, Hthree, E.
    + apply Hnot in E; rewrite E in Hin.
      destruct Hin as [Hin|[]]; discriminate.
  - apply submitted_sizes; now apply sessionInvariant_empty.
Qed.

(** A fleet is handed over once the third ship is placed, not before. *)
Example fleet_submitted_example :
  submitted initialState
    [CellClick 0 0; Complete; CellClick 2 0; CellClick 4 0; Complete]
  = [[Ship.mk 4 [(0, 0); (0, 1); (0, 2); (0, 3)] "Battleship";
      Ship.mk 3 [(2, 0); (2, 1); (2, 2)] "Cruiser";
      Ship.mk 2 [(4, 0); (4, 1)] "Destroyer"]].
Proof. reflexivity. Qed.

End Session.

(** ** More on the placement component *)
Section PlacementGeometry.

Import JS ShipPlacement.

Lemma In_getCellsForShip (x y s : Z) (orient : string) (c : Cell) :
  In c (getCellsForShip x y s orient)
  <-> exists i, 0 <= i < s /\ c = cellAt x y orient i.
Proof.
  rewrite getCellsForShip_closed, in_map_iff; split.
  - intros [i [<- Hi]]; exists i; split; [now apply indices_In|reflexivity].
  - intros [i [Hi ->]]; exists i; split; [reflexivity|now apply indices_In].
Qed.

(** Validity of a generated run, cell by cell. *)
Lemma isValidPlacement_run (placed : list Ship.t) (x y s : Z)
    (orient : string) :
  isValidPlacement placed (getCellsForShip x y s orient) = true
  <-> (forall i, 0 <= i < s -> inBoard (cellAt x y orient i))
      /\ (forall i, 0 <= i < s ->
          forall ship, In ship placed ->
                       ~ In (cellAt x y orient i) (Ship.cells ship)).
Proof.
  rewrite isValidPlacement_true; unfold clearOf; split; intros [Hb Hc]; split.
  - intros i Hi; apply Hb, In_getCellsForShip; eauto.
  - intros i Hi ship Hship Hin.
    apply (Hc ship _ Hship Hin), In_getCellsForShip; eauto.
  - intros c Hin; apply In_getCellsForShip in Hin.
    destruct Hin as [i [Hi ->]]; auto.
  - intros ship c Hship Hin Hgen; apply In_getCellsForShip in Hgen.
    destruct Hgen as [i [Hi ->]]; exact (Hc i Hi ship Hship Hin).
Qed.

(** X1: a ship of size [s >= 1] laid horizontally from [(x, y)] is accepted
    exactly when its row [x] is on the board, it starts at a column
    [y >= 0] and ends by column 4, and none of its cells [(x, y+i)] belongs
    to a placed ship; vertically the same with rows and columns swapped. *)
Theorem placement_fits_iff (placed : list Ship.t) (x y s : Z) :
  1 <= s ->
  (isValidPlacement placed (getCellsForShip x y s "horizontal") = true
   <-> (0 <= x <= 4 /\ 0 <= y /\ y + s <= 5)
       /\ (forall i, 0 <= i < s ->
           forall ship, In ship placed -> ~ In (x, y + i) (Ship.cells ship)))
  /\ (isValidPlacement placed (getCellsForShip x y s "vertical") = true
      <-> (0 <= y <= 4 /\ 0 <= x /\ x + s <= 5)
          /\ (forall i, 0 <= i < s ->
              forall ship, In ship placed ->
                           ~ In (x + i, y) (Ship.cells ship))).
Proof.
  intro Hs; split; rewrite isValidPlacement_run;
    unfold cellAt, inBoard; simpl.
  - split; intros [Hb Hc]; (split; [|exact Hc]).
    + pose proof (Hb 0 ltac:(lia)); pose proof (Hb (s - 1) ltac:(lia)); lia.
    + intros i Hi; lia.
  - split; intros [Hb Hc]; (split; [|exact Hc]).
    + pose proof (Hb 0 ltac:(lia)); pose proof (Hb (s - 1) ltac:(lia)); lia.
    + intros i Hi; lia.
Qed.

Lemma placement_fits_iff_witness :
  (isValidPlacement [Ship.mk 4 [(0, 0); (0, 1); (0, 2); (0, 3)] "Battleship"]
     (getCellsForShip 2 1 3 "horizontal") = true
   <-> (0 <= 2 <= 4 /\ 0 <= 1 /\ 1 + 3 <= 5)
       /\ (forall i, 0 <= i < 3 ->
           forall ship,
             In ship
               [Ship.mk 4 [(0, 0); (0, 1); (0, 2); (0, 3)] "Battleship"] ->
             ~ In (2, 1 + i) (Ship.cells ship)))
  /\ (isValidPlacement
        [Ship.mk 4 [(0, 0); (0, 1); (0, 2); (0, 3)] "Battleship"]
        (getCellsForShip 2 1 3 "vertical") = true
      <-> (0 <= 1 <= 4 /\ 0 <= 2 /\ 2 + 3 <= 5)
          /\ (forall i, 0 <= i < 3 ->
              forall ship,
                In ship
                  [Ship.mk 4 [(0, 0); (0, 1); (0, 2); (0, 3)] "Battleship"] ->
                ~ In (2 + i, 1) (Ship.cells ship))).
Proof.
  apply (placement_fits_iff
           [Ship.mk 4 [(0, 0); (0, 1); (0, 2); (0, 3)] "Battleship"] 2 1 3).
  lia.
Defined.

(** A size that is zero or negative runs the loop body not at all, and the
    empty run passes validation on any board. *)
Lemma getCellsForShip_empty (x y s : Z) (orient : string) :
  s <= 0 -> getCellsForShip x y s orient = [].
Proof.
  intro Hs; rewrite getCellsForShip_closed; unfold indices.
  replace (Z.to_nat s) with O by lia; reflexivity.
Qed.

End PlacementGeometry.

(** ** More on the placement session *)
Section SessionMore.

Import JS ShipPlacement.

Lemma cell_test_true (x y : Z) (c : Cell) :
  (let '(cx, cy) := c in (cx =? x) && (cy =? y)) = true <-> c = (x, y).
Proof.
  destruct c as [cx cy]; rewrite andb_true_iff, !Z.eqb_eq.
  split; [intros [-> ->]; reflexivity|intros [= -> ->]; auto].
Qed.

Lemma some_cell_test (x y : Z) (cells : list Cell) :
  existsb (fun '(cx, cy) => (cx =? x) && (cy =? y)) cells = true
  <-> In (x, y) cells.
Proof.
  rewrite existsb_exists; split.
  - intros [c [Hc E]]; apply cell_test_true in E; now subst.
  - intro H; exists (x, y); split; [assumption|].
    now rewrite !Z.eqb_refl.
Qed.

Lemma isCellOccupied_true (st : State.t) (x y : Z) :
  isCellOccupied st x y = true
  <-> exists ship, In ship (State.placedShips st)
                   /\ In (x, y) (Ship.cells ship).
Proof.
  unfold isCellOccupied; rewrite existsb_exists.
  split; intros [ship [Hs E]]; exists ship; split; auto;
    now apply some_cell_test.
Qed.

Lemma isCellHovered_true (st : State.t) (x y : Z) :
  isCellHovered st x y = true <-> In (x, y) (State.hoveredCells st).
Proof. apply some_cell_test. Qed.

(** The current kind is one of the three of [SHIPS]. *)
Lemma currentShip_size (st : State.t) (kind : ShipKind.t) :
  currentShip st = Some kind ->
  (State.currentShipIndex st <? length SHIPS) = true
  /\ 2 <= ShipKind.size kind <= 4.
Proof.
  intro Hk; destruct (currentShip_some st kind Hk) as [Hrange Hsize].
  split; [apply Z.ltb_lt; unfold length; simpl; lia|].
  apply nth_error_In in Hsize; unfold requiredSizes in Hsize; simpl in Hsize.
  lia.
Qed.

Lemma step_hover (st : State.t) (x y : Z) (kind : ShipKind.t) :
  currentShip st = Some kind ->
  let cells :=
    getCellsForShip x y (ShipKind.size kind) (State.orientation st) in
  step st (CellHover x y)
  = State.mk (State.placedShips st) (State.currentShipIndex st)
      (State.orientation st) cells
      (isValidPlacement (State.placedShips st) cells).
Proof.
  intros Hk cells; destruct (currentShip_size st kind Hk) as [Hlt _].
  unfold step, handle, handleCellHover.
  rewrite Z.geb_leb, Z.leb_antisym, Hlt, Hk; reflexivity.
Qed.

Lemma handleCellClick_valid (st : State.t) (x y : Z) (kind : ShipKind.t) :
  currentShip st = Some kind ->
  let cells :=
    getCellsForShip x y (ShipKind.size kind) (State.orientation st) in
  isValidPlacement (State.placedShips st) cells = true ->
  step st (CellClick x y)
  = State.mk
      (State.placedShips st
       ++ [Ship.mk (ShipKind.size kind) cells (ShipKind.name kind)])
      (State.currentShipIndex st + 1) (State.orientation st) []
      (State.isValid st).
Proof.
  intros Hk cells Hv; destruct (currentShip_size st kind Hk) as [Hlt _].
  unfold step, handle, handleCellClick.
  rewrite Z.geb_leb, Z.leb_antisym, Hlt, Hk; fold cells; rewrite Hv; simpl.
  destruct (State.currentShipIndex st =? _); reflexivity.
Qed.

Lemma handleCellClick_invalid (st : State.t) (x y : Z) (kind : ShipKind.t) :
  currentShip st = Some kind ->
  isValidPlacement (State.placedShips st)
    (getCellsForShip x y (ShipKind.size kind) (State.orientation st)) = false ->
  handleCellClick st x y
  = [ toast_error
        "Invalid placement! Ships cannot overlap or go out of bounds." ].
Proof.
  intros Hk Hv; destruct (currentShip_size st kind Hk) as [Hlt _].
  unfold handleCellClick.
  rewrite Z.geb_leb, Z.leb_antisym, Hlt, Hk, Hv; reflexivity.
Qed.

(** X2: hovering a cell while a ship is left to place previews exactly what
    a click on that cell does: [hoveredCells] are the cells the click would
    place; when [isValid] comes out true the click appends that ship, the
    cells shown as valid preview are exactly its cells, and after the click
    the green cells are the old green ones plus the previewed ones; when
    [isValid] comes out false the click changes nothing. *)
Theorem hover_predicts_click (st : State.t) (x y : Z) (kind : ShipKind.t) :
  currentShip st = Some kind ->
  let cells :=
    getCellsForShip x y (ShipKind.size kind) (State.orientation st) in
  let hov := step st (CellHover x y) in
  let blue := "bg-blue-500/30 border-blue-500 ship-preview" in
  let green := "bg-green-500/40 border-green-500" in
  State.hoveredCells hov = cells
  /\ State.placedShips hov = State.placedShips st
  /\ (State.isValid hov = true ->
      State.placedShips (step hov (CellClick x y))
      = State.placedShips st
        ++ [Ship.mk (ShipKind.size kind) cells (ShipKind.name kind)]
      /\ (forall cx cy, cellColour hov cx cy = blue <-> In (cx, cy) cells)
      /\ (forall cx cy,
            cellColour (step hov (CellClick x y)) cx cy = green
            <-> cellColour hov cx cy = green \/ cellColour hov cx cy = blue))
  /\ (State.isValid hov = false -> step hov (CellClick x y) = hov).
Proof.
  intros Hk cells hov blue green.
  assert (Ehov : hov = State.mk (State.placedShips st)
                         (State.currentShipIndex st) (State.orientation st)
                         cells (isValidPlacement (State.placedShips st) cells))
    by (apply step_hover; exact Hk).
  assert (Hk' : currentShip hov = Some kind) by (rewrite Ehov; exact Hk).
  assert (Hp : State.placedShips hov = State.placedShips st)
    by (rewrite Ehov; reflexivity).
  assert (Hh : State.hoveredCells hov = cells) by (rewrite Ehov; reflexivity).
  assert (Ho : State.orientation hov = State.orientation st)
    by (rewrite Ehov; reflexivity).
  assert (Hval : State.isValid hov
                 = isValidPlacement (State.placedShips st) cells)
    by (rewrite Ehov; reflexivity).
  clearbody hov; clear Ehov.
  split; [exact Hh|split; [exact Hp|split]].
  - intro Hv; rewrite Hval in Hv.
    assert (Hvalid : isValidPlacement (State.placedShips hov)
                       (getCellsForShip x y (ShipKind.size kind)
                          (State.orientation hov)) = true)
      by (rewrite Hp, Ho; exact Hv).
    pose proof (handleCellClick_valid hov x y kind Hk' Hvalid) as Eclick.
    rewrite Hp, Ho in Eclick; fold cells in Eclick.
    assert (Hclear : clearOf (State.placedShips st) cells)
      by (apply isValidPlacement_true in Hv; apply Hv).
    assert (Hocc : forall cx cy,
              isCellOccupied hov cx cy = true -> ~ In (cx, cy) cells).
    { intros cx cy Hocc; apply isCellOccupied_true in Hocc.
      destruct Hocc as [ship [Hs Hc]]; rewrite Hp in Hs.
      exact (Hclear ship _ Hs Hc). }
    assert (Hblue : forall cx cy,
              cellColour hov cx cy = blue <-> In (cx, cy) cells).
    { intros cx cy; unfold cellColour; rewrite Hval, Hv.
      destruct (isCellOccupied hov cx cy) eqn:Eo.
      - split; [discriminate|intro Hin; destruct (Hocc cx cy Eo Hin)].
      - destruct (isCellHovered hov cx cy) eqn:Eh.
        + apply isCellHovered_true in Eh; rewrite Hh in Eh.
          split; [intros _; exact Eh|reflexivity].
        + split; [discriminate|].
          intro Hin.
          assert (isCellHovered hov cx cy = true); [|congruence].
          apply isCellHovered_true; rewrite Hh; exact Hin. }
    split; [rewrite Eclick; reflexivity|].
    split; [exact Hblue|].
    intros cx cy; rewrite Hblue.
    assert (Hgreen : forall s, cellColour s cx cy = green
                               <-> isCellOccupied s cx cy = true).
    { intro s; unfold cellColour.
      destruct (isCellOccupied s cx cy); [split; reflexivity|].
      destruct (isCellHovered s cx cy); [destruct (State.isValid s)|];
        split; discriminate. }
    rewrite !Hgreen, !isCellOccupied_true, Eclick, Hp; simpl.
    split.
    + intros [ship [Hs Hc]]; apply in_app_or in Hs.
      destruct Hs as [Hs|[<-|[]]].
      * left; exists ship; auto.
      * right; exact Hc.
    + intros [[ship [Hs Hc]]|Hin].
      * exists ship; split; [apply in_or_app; left|]; assumption.
      * eexists; split; [apply in_or_app; right; left; reflexivity|].
        exact Hin.
  - intro Hv; rewrite Hval in Hv.
    assert (Hinvalid : isValidPlacement (State.placedShips hov)
                         (getCellsForShip x y (ShipKind.size kind)
                            (State.orientation hov)) = false)
      by (rewrite Hp, Ho; exact Hv).
    unfold step, handle.
    rewrite (handleCellClick_invalid hov x y kind Hk' Hinvalid); reflexivity.
Qed.

Lemma hover_predicts_click_witness :
  let st :=
    State.mk [Ship.mk 4 [(0, 0); (0, 1); (0, 2); (0, 3)] "Battleship"] 1
      "horizontal" [] true in
  let cells := getCellsForShip 2 0 3 "horizontal" in
  let hov := step st (CellHover 2 0) in
  let blue := "bg-blue-500/30 border-blue-500 ship-preview" in
  let green := "bg-green-500/40 border-green-500" in
  State.hoveredCells hov = cells
  /\ State.placedShips hov = State.placedShips st
  /\ (State.isValid hov = true ->
      State.placedShips (step hov (CellClick 2 0))
      = State.placedShips st ++ [Ship.mk 3 cells "Cruiser"]
      /\ (forall cx cy, cellColour hov cx cy = blue <-> In (cx, cy) cells)
      /\ (forall cx cy,
            cellColour (step hov (CellClick 2 0)) cx cy = green
            <-> cellColour hov cx cy = green \/ cellColour hov cx cy = blue))
  /\ (State.isValid hov = false -> step hov (CellClick 2 0) = hov).
Proof.
  apply (hover_predicts_click
           (State.mk [Ship.mk 4 [(0, 0); (0, 1); (0, 2); (0, 3)] "Battleship"]
              1 "horizontal" [] true)
           2 0 (ShipKind.mk 3 "Cruiser" "from-green-500 to-green-600")).
  reflexivity.
Defined.

(** X3: a click on a cell that a placed ship occupies never places a ship:
    in every state of the component it leaves the state as it is.  A hover
    over such a cell marks the preview invalid while a ship is left to
    place; once the ship index has reached the end of [SHIPS] the hover
    handler returns at once and the hover changes nothing, [isValid]
    included. *)
Theorem occupied_cell_click_rejected (st : State.t) (x y : Z) :
  isCellOccupied st x y = true ->
  step st (CellClick x y) = st
  /\ (forall kind, currentShip st = Some kind ->
                   State.isValid (step st (CellHover x y)) = false)
  /\ (length SHIPS <= State.currentShipIndex st ->
      handleCellHover st x y = [] /\ step st (CellHover x y) = st).
Proof.
  intro Ho; apply isCellOccupied_true in Ho; destruct Ho as [ship [Hs Hc]].
  assert (Hinvalid : forall kind, currentShip st = Some kind ->
            isValidPlacement (State.placedShips st)
              (getCellsForShip x y (ShipKind.size kind)
                 (State.orientation st)) = false).
  { intros kind Hk; destruct (currentShip_size st kind Hk) as [_ Hsize].
    destruct (isValidPlacement _ _) eqn:Hv; [|reflexivity].
    apply isValidPlacement_true in Hv; destruct Hv as [_ Hclear].
    exfalso; apply (Hclear ship (x, y) Hs Hc).
    apply In_getCellsForShip; exists 0; split; [lia|].
    unfold cellAt; destruct (String.eqb _ _); f_equal; lia. }
  split; [|split].
  - unfold step, handle.
    destruct (currentShip st) as [kind|] eqn:Hk.
    + rewrite (handleCellClick_invalid st x y kind Hk (Hinvalid kind eq_refl)).
      reflexivity.
    + unfold handleCellClick; rewrite Hk.
      destruct (_ >=? _); reflexivity.
  - intros kind Hk; rewrite (step_hover st x y kind Hk); simpl.
    apply Hinvalid, Hk.
  - intro Hfull.
    assert (Hge : (State.currentShipIndex st >=? length SHIPS) = true)
      by (rewrite Z.geb_leb; now apply Z.leb_le).
    unfold step, handle, handleCellHover; rewrite Hge; split; reflexivity.
Qed.

Lemma occupied_cell_click_rejected_witness :
  let st :=
    State.mk [Ship.mk 4 [(0, 0); (0, 1); (0, 2); (0, 3)] "Battleship"] 1
      "vertical" [] true in
  step st (CellClick 0 2) = st
  /\ (forall kind, currentShip st = Some kind ->
                   State.isValid (step st (CellHover 0 2)) = false)
  /\ (length SHIPS <= State.currentShipIndex st ->
      handleCellHover st 0 2 = [] /\ step st (CellHover 0 2) = st).
Proof.
  apply (occupied_cell_click_rejected
           (State.mk [Ship.mk 4 [(0, 0); (0, 1); (0, 2); (0, 3)] "Battleship"]
              1 "vertical" [] true) 0 2).
  reflexivity.
Defined.

(** With three ships placed a hover over an occupied cell leaves [isValid]
    as it was. *)
Example hover_after_last_ship :
  let st :=
    run initialState [CellClick 0 0; CellClick 2 0; CellClick 4 0] in
  isCellOccupied st 0 0 = true
  /\ State.isValid st = true
  /\ step st (CellHover 0 0) = st.
Proof. repeat split. Qed.

(** With the ship index at or past the end of [SHIPS], only a reset
    changes the placed ships or the index. *)
Lemma full_step (st : State.t) (ev : Event) :
  length SHIPS <= State.currentShipIndex st ->
  ev <> Reset ->
  State.placedShips (step st ev) = State.placedShips st
  /\ State.currentShipIndex (step st ev) = State.currentShipIndex st.
Proof.
  intros Hfull Hev.
  assert (Hge : (State.currentShipIndex st >=? length SHIPS) = true)
    by (rewrite Z.geb_leb; now apply Z.leb_le).
  destruct ev as [x y|x y| | | |]; unfold step, handle; try (now split).
  - unfold handleCellClick; rewrite Hge; now split.
  - unfold handleCellHover; rewrite Hge; now split.
  - unfold handleComplete; destruct (negb _); now split.
Qed.

(** X4: once a session has placed its three ships, clicks and hovers on the
    grid do nothing at all, and the placed fleet stays as it is under any
    further events until a reset. *)
Theorem complete_fleet_frozen (evs : list Event) :
  let st := run initialState evs in
  List.length (State.placedShips st) = 3%nat ->
  (forall x y, handleCellClick st x y = [] /\ handleCellHover st x y = [])
  /\ (forall more, ~ In Reset more ->
                   State.placedShips (run st more) = State.placedShips st).
Proof.
  intros st Hlen.
  assert (Hinv : sessionInvariant st)
    by (apply sessionInvariant_run; now apply sessionInvariant_empty).
  destruct Hinv as (_ & Hidx & _).
  assert (Hfull : length SHIPS <= State.currentShipIndex st)
    by (rewrite Hidx; unfold length; rewrite Hlen; simpl; lia).
  clearbody st; clear Hidx Hlen; split.
  - intros x y; unfold handleCellClick, handleCellHover.
    assert (Hge : (State.currentShipIndex st >=? length SHIPS) = true)
      by (rewrite Z.geb_leb; now apply Z.leb_le).
    rewrite Hge; split; reflexivity.
  - intro more; revert st Hfull.
    induction more as [|ev more IH]; intros st Hfull Hno; [reflexivity|].
    simpl; destruct (full_step st ev Hfull) as [Hp Hi].
    + intros ->; apply Hno; now left.
    + rewrite IH; [exact Hp|rewrite Hi; exact Hfull|].
      intro Hin; apply Hno; now right.
Qed.

Lemma complete_fleet_frozen_witness :
  let st :=
    run initialState [CellClick 0 0; CellClick 2 0; Rotate; CellClick 3 4] in
  (forall x y, handleCellClick st x y = [] /\ handleCellHover st x y = [])
  /\ (forall more, ~ In Reset more ->
                   State.placedShips (run st more) = State.placedShips st).
Proof.
  apply (complete_fleet_frozen
           [CellClick 0 0; CellClick 2 0; Rotate; CellClick 3 4]).
  reflexivity.
Defined.

(** The orientation after a step is the old one or one of the two
    literals of the rotate button. *)
Lemma orientation_step (st : State.t) (ev : Event) :
  State.orientation (step st ev) = State.orientation st
  \/ State.orientation (step st ev) = "horizontal"
  \/ State.orientation (step st ev) = "vertical".
Proof.
  destruct ev as [x y|x y| | | |]; unfold step, handle; try (now left).
  - left; unfold handleCellClick.
    destruct (_ >=? _); [reflexivity|].
    destruct (currentShip st); [|reflexivity].
    destruct (negb _); [reflexivity|]; simpl.
    destruct (_ =? _); reflexivity.
  - left; unfold handleCellHover.
    destruct (_ >=? _); [reflexivity|].
    destruct (currentShip st); reflexivity.
  - right; simpl.
    destruct (String.eqb (State.orientation st) "horizontal"); auto.
  - left; unfold handleComplete; destruct (negb _); reflexivity.
Qed.

Lemma getCellsForShip_NoDup (x y s : Z) (orient : string) :
  NoDup (getCellsForShip x y s orient).
Proof.
  rewrite getCellsForShip_closed.
  apply Injective_map_NoDup; [|apply indices_NoDup].
  intros i j; apply cellAt_injective.
Qed.

Lemma getCellsForShip_length (x y s : Z) (orient : string) :
  0 <= s -> length (getCellsForShip x y s orient) = s.
Proof.
  intro Hs; rewrite getCellsForShip_closed.
  unfold length; rewrite length_map; now apply indices_length.
Qed.

Lemma fleetCells_snoc (placed : list Ship.t) (ship : Ship.t) :
  fleetCells (placed ++ [ship]) = fleetCells placed ++ Ship.cells ship.
Proof.
  unfold fleetCells; rewrite map_app, concat_app; simpl.
  now rewrite app_nil_r.
Qed.

Lemma sessionShape_step (st : State.t) (ev : Event) :
  sessionInvariant st -> sessionShape st -> sessionShape (step st ev).
Proof.
  intros (_ & Hidx & _) (Ho & Hgen & Hnd).
  assert (Ho' : State.orientation (step st ev) = "horizontal"
                \/ State.orientation (step st ev) = "vertical").
  { destruct (orientation_step st ev) as [->|H]; assumption. }
  destruct (step_cases st ev) as [[Hp _]|[[Hp _]|Hnew]];
    unfold sessionShape.
  - rewrite Hp; auto.
  - rewrite Hp; split; [exact Ho'|split; [|constructor]].
    intros [|i] ship; discriminate.
  - destruct Hnew as (kind & x & y & Hkind & Hvalid & Hp & _).
    rewrite Hp; split; [exact Ho'|split].
    + intros i ship Hnth.
      apply nth_error_snoc in Hnth; destruct Hnth as [[_ Hnth]|[-> ->]].
      * now apply Hgen.
      * exists kind, x, y, (State.orientation st).
        split; [|split; [exact Ho|reflexivity]].
        unfold currentShip, index in Hkind.
        destruct (State.currentShipIndex st <? 0); [discriminate|].
        rewrite Hidx in Hkind; unfold length in Hkind.
        now rewrite Nat2Z.id in Hkind.
    + rewrite fleetCells_snoc; apply NoDup_app.
      * exact Hnd.
      * apply getCellsForShip_NoDup.
      * intros c Hc; unfold fleetCells in Hc; apply in_concat in Hc.
        destruct Hc as [l [Hl Hc]]; apply in_map_iff in Hl.
        destruct Hl as [ship [<- Hship]].
        apply isValidPlacement_true in Hvalid; destruct Hvalid as [_ Hclear].
        exact (Hclear ship c Hship Hc).
Qed.

Lemma sessionShape_run (evs : list Event) :
  forall st, sessionInvariant st -> sessionShape st ->
             sessionShape (run st evs).
Proof.
  induction evs as [|ev evs IH]; intros st Hinv Hshape; simpl;
    [assumption|].
  apply IH; [now apply sessionInvariant_step|now apply sessionShape_step].
Qed.

Lemma sessionShape_initial : sessionShape initialState.
Proof.
  split; [now left|split; [|constructor]].
  intros [|i] ship; discriminate.
Qed.

Lemma generatedShip_cells (i : nat) (ship : Ship.t) :
  generatedShip i ship ->
  length (Ship.cells ship) = Ship.size ship /\ NoDup (Ship.cells ship).
Proof.
  intros (kind & x & y & o & Hk & _ & ->); simpl; split.
  - apply getCellsForShip_length.
    apply nth_error_In in Hk; simpl in Hk.
    destruct Hk as [<-|[<-|[<-|[]]]]; simpl; lia.
  - apply getCellsForShip_NoDup.
Qed.

Lemma complete_fleet_nine (st : State.t) :
  sessionInvariant st -> sessionShape st ->
  List.length (State.placedShips st) = 3%nat ->
  List.length (fleetCells (State.placedShips st)) = 9%nat.
Proof.
  intros Hinv (_ & Hgen & _) Hlen.
  pose proof (complete_fleet_sizes _ Hinv Hlen) as Hsizes.
  destruct (State.placedShips st) as [|a [|b [|c [|d rest]]]];
    try discriminate.
  destruct (generatedShip_cells 0 a (Hgen 0%nat a eq_refl)) as [Ha _].
  destruct (generatedShip_cells 1 b (Hgen 1%nat b eq_refl)) as [Hb _].
  destruct (generatedShip_cells 2 c (Hgen 2%nat c eq_refl)) as [Hc _].
  injection Hsizes as Sa Sb Sc.
  unfold fleetCells; simpl; rewrite !length_app; simpl.
  unfold length in Ha, Hb, Hc; lia.
Qed.

(** What holds of every fleet a session hands to [onComplete] follows from
    the invariants of a state with three ships. *)
Lemma submitted_Forall (P : list Ship.t -> Prop) :
  (forall st, sessionInvariant st -> sessionShape st ->
              List.length (State.placedShips st) = 3%nat ->
              P (State.placedShips st)) ->
  forall evs st, sessionInvariant st -> sessionShape st ->
                 Forall P (submitted st evs).
Proof.
  intros HP evs; induction evs as [|ev evs IH]; intros st Hinv Hshape;
    simpl; [constructor|].
  apply Forall_app; split.
  - destruct (fleetsOf_handle st ev) as [->|[-> Hlen]]; [constructor|].
    constructor; [|constructor]; now apply HP.
  - apply IH; [now apply sessionInvariant_step|now apply sessionShape_step].
Qed.

(** X5: in every state a placement session can reach, the i-th placed ship
    is the i-th kind of [SHIPS] laid as a generated horizontal or vertical
    run, so it has as many cells as its size, all distinct; no cell occurs
    twice in the whole fleet, and a fleet of three ships covers exactly
    nine cells. *)
Theorem placed_ships_are_runs (evs : list Event) :
  let placed := State.placedShips (run initialState evs) in
  (forall i ship,
      nth_error placed i = Some ship ->
      exists kind x y orient,
        nth_error SHIPS i = Some kind
        /\ (orient = "horizontal" \/ orient = "vertical")
        /\ ship = Ship.mk (ShipKind.size kind)
                    (getCellsForShip x y (ShipKind.size kind) orient)
                    (ShipKind.name kind))
  /\ (forall ship, In ship placed ->
                   length (Ship.cells ship) = Ship.size ship
                   /\ NoDup (Ship.cells ship))
  /\ NoDup (fleetCells placed)
  /\ (List.length placed = 3%nat -> List.length (fleetCells placed) = 9%nat).
Proof.
  intro placed.
  assert (Hinv : sessionInvariant (run initialState evs))
    by (apply sessionInvariant_run; now apply sessionInvariant_empty).
  destruct (sessionShape_run evs initialState) as (_ & Hgen & Hnd).
  { now apply sessionInvariant_empty. }
  { apply sessionShape_initial. }
  fold placed in Hgen, Hnd.
  assert (Hcells : forall ship, In ship placed ->
            length (Ship.cells ship) = Ship.size ship
            /\ NoDup (Ship.cells ship)).
  { intros ship Hin; apply In_nth_error in Hin; destruct Hin as [i Hi].
    exact (generatedShip_cells i ship (Hgen i ship Hi)). }
  split; [exact Hgen|split; [exact Hcells|split; [exact Hnd|]]].
  intro Hlen; apply complete_fleet_nine; try assumption.
  apply sessionShape_run;
    [now apply sessionInvariant_empty|apply sessionShape_initial].
Qed.

(** X6: in every state a placement session can reach the orientation is
    ["horizontal"] or ["vertical"], and rotating twice gives the state
    back. *)
Theorem rotate_twice_restores (evs : list Event) :
  let st := run initialState evs in
  (State.orientation st = "horizontal" \/ State.orientation st = "vertical")
  /\ State.orientation (step st Rotate) <> State.orientation st
  /\ step (step st Rotate) Rotate = st.
Proof.
  intro st.
  destruct (sessionShape_run evs initialState) as (Ho & _).
  { now apply sessionInvariant_empty. }
  { apply sessionShape_initial. }
  fold st in Ho; clearbody st.
  split; [exact Ho|].
  destruct st as [placed idx o hov valid]; simpl in Ho.
  unfold step, handle, handleRotate; simpl.
  destruct Ho as [-> | ->]; simpl; split; [discriminate|reflexivity
                                           |discriminate|reflexivity].
Qed.

(** X7: in every state a placement session can reach, a click raises the
    "All ships placed!" toast exactly when it places the third ship. *)
Theorem all_placed_toast_iff (evs : list Event) (x y : Z) :
  let st := run initialState evs in
  In (toast_success "All ships placed! Ready to start game.")
    (handleCellClick st x y)
  <-> List.length (State.placedShips st) = 2%nat
      /\ List.length (State.placedShips (step st (CellClick x y))) = 3%nat.
Proof.
  intro st.
  assert (Hinv : sessionInvariant st)
    by (apply sessionInvariant_run; now apply sessionInvariant_empty).
  destruct Hinv as (_ & Hidx & _); unfold length in Hidx.
  clearbody st.
  destruct (currentShip st) as [kind|] eqn:Hk.
  - destruct (isValidPlacement (State.placedShips st)
                (getCellsForShip x y (ShipKind.size kind)
                   (State.orientation st))) eqn:Hv.
    + rewrite (handleCellClick_valid st x y kind Hk Hv); simpl.
      rewrite length_app; simpl.
      destruct (currentShip_size st kind Hk) as [Hlt _].
      unfold handleCellClick.
      rewrite Z.geb_leb, Z.leb_antisym, Hlt, Hk, Hv; simpl.
      destruct (Z.eqb_spec (State.currentShipIndex st) 2) as [E|E]; simpl.
      * split; [intros _; lia|auto].
      * split; [intros [H|[H|[H|[]]]]; discriminate|lia].
    + unfold step, handle.
      rewrite (handleCellClick_invalid st x y kind Hk Hv); simpl.
      split; [intros [H|[]]; discriminate|lia].
  - unfold step, handle, handleCellClick; rewrite Hk.
    destruct (_ >=? _); simpl.
    + split; [intros []|lia].
    + split; [intros [H|[]]; discriminate|lia].
Qed.

End SessionMore.

(** ** More on the game board *)
Section BoardMore.

Import JS GameBoard.




Lemma className_disabled (d : bool) (cellState : string) :
  In "disabled" (className d cellState)
  <-> d = true \/ cellState <> "empty".
Proof.
  unfold className.
  destruct (String.eqb_spec cellState "empty") as [->|Hne]; simpl.
  - destruct d; simpl.
    + split; [auto|intros _; do 5 right; now left].
    + split; [|intros [H|H]; [discriminate|contradiction]].
      intros [H|[H|[H|[H|[H|[H|[]]]]]]]; discriminate.
  - rewrite orb_true_r; split; [auto|intros _; do 5 right; now left].
Qed.

(** On the opponent's board a cell is ["empty"] exactly when no move
    targets it. *)
Lemma enemy_empty_iff {Callback : Type} (p : Props Callback) (x y : Z) :
  isPlayerBoard p = false ->
  getCellState p x y = "empty" <-> existsb (moveAt x y) (moves p) = false.
Proof.
  intro Henemy; rewrite getCellState_enemy by assumption.
  rewrite <- find_none_iff.
  destruct (find (moveAt x y) (moves p)) as [m|]; [|tauto].
  destruct (String.eqb (Move.result m) "miss");
    [split; discriminate|].
  destruct (String.eqb (Move.result m) "sunk"); split; discriminate.
Qed.

(** X9: on the opponent's board with a click callback, a cell is styled
    without the ["disabled"] class exactly when a click on it invokes the
    callback (with the cell's coordinates), and carries the class exactly
    when a click does nothing; on an enabled board these are the cells
    projected ["empty"]. *)
Theorem enabled_style_iff_clickable {Callback : Type} (p : Props Callback)
    (f : Callback) (x y : Z) :
  isPlayerBoard p = false ->
  onCellClick p = Some f ->
  (handleCellClick p x y = [call f x y]
   <-> ~ In "disabled" (buttonClassName p x y))
  /\ (handleCellClick p x y = []
      <-> In "disabled" (buttonClassName p x y))
  /\ (disabled p = false ->
      (getCellState p x y = "empty"
       <-> handleCellClick p x y = [call f x y])).
Proof.
  intros Henemy Hcb.
  unfold buttonClassName; rewrite className_disabled.
  rewrite (enemy_empty_iff p x y Henemy).
  unfold handleCellClick; rewrite Hcb.
  destruct (disabled p), (existsb (moveAt x y) (moves p)); simpl;
    repeat split; try discriminate; try reflexivity; try tauto;
    try (intros [H|H]; congruence); try (intro H; exfalso; apply H; auto);
    auto.
  - intros _; right; discriminate.
  - intros _ [H|H]; [discriminate|now apply H].
Qed.

Lemma enabled_style_iff_clickable_witness :
  let p := mkProps [] [Move.mk 1 1 "miss"] false (Some Game.handleMove)
             false in
  (handleCellClick p 2 3 = [call Game.handleMove 2 3]
   <-> ~ In "disabled" (buttonClassName p 2 3))
  /\ (handleCellClick p 2 3 = []
      <-> In "disabled" (buttonClassName p 2 3))
  /\ (disabled p = false ->
      (getCellState p 2 3 = "empty"
       <-> handleCellClick p 2 3 = [call Game.handleMove 2 3])).
Proof.
  apply (enabled_style_iff_clickable
           (mkProps [] [Move.mk 1 1 "miss"] false (Some Game.handleMove)
              false)
           Game.handleMove 2 3); reflexivity.
Defined.

Lemma cell_of_index (x y : Z) :
  0 <= y < 5 -> (5 * x + y) / 5 = x /\ (5 * x + y) mod 5 = y.
Proof.
  intro Hy; split.
  - symmetry; apply (Z.div_unique_pos _ 5 x y); lia.
  - symmetry; apply (Z.mod_unique_pos _ 5 x y); lia.
Qed.

(** X10: the grid has exactly 25 buttons; every cell [(x, y)] of the board
    has its button at index [5x + y], carrying that cell's projected state
    and click closure; and no two buttons carry the same coordinates. *)
Theorem grid_covers_board {Callback : Type} (p : Props Callback) :
  List.length (render p) = 25%nat
  /\ (forall x y,
        inBoard (x, y) ->
        nth_error (render p) (Z.to_nat (5 * x + y))
        = Some (Button.mk x y (getCellState p x y) (handleCellClick p x y)
                  (disabled p)))
  /\ NoDup (map (fun b => (Button.x b, Button.y b)) (render p)).
Proof.
  split; [reflexivity|split].
  - intros x y [Hx Hy]; simpl in Hx, Hy.
    destruct (cell_of_index x y) as [Hq Hr]; [lia|].
    remember (5 * x + y) as n eqn:En.
    assert (Hn : 0 <= n < 25) by lia.
    unfold render, indices; rewrite !nth_error_map, nth_error_seq.
    change (Z.to_nat (gridSize * gridSize)) with 25%nat.
    destruct (Nat.ltb_spec (Z.to_nat n) 25); [|lia].
    cbn [option_map Nat.add]; rewrite Z2Nat.id by lia.
    unfold gridSize; rewrite Z.rem_mod_nonneg by lia.
    rewrite Hq, Hr; reflexivity.
  - unfold render; rewrite map_map; cbn [Button.x Button.y].
    apply Injective_map_NoDup_in; [|apply indices_NoDup].
    intros i j Hi Hj; apply indices_In in Hi, Hj.
    change (gridSize * gridSize) with 25 in Hi, Hj.
    unfold gridSize; rewrite !Z.rem_mod_nonneg by lia.
    intros [= Hq Hr].
    rewrite (Z.div_mod i 5), (Z.div_mod j 5) by lia; congruence.
Qed.

End BoardMore.

(** ** More on the game page *)
Section GameMore.

Import JS GameBoard.

(** The button a click index reaches. *)
Lemma render_nth {Callback : Type} (p : Props Callback) (k : nat) :
  nth_error (render p) k
  = if (k <? 25)%nat
    then Some (Button.mk (Z.of_nat k / 5) (Z.of_nat k mod 5)
                 (getCellState p (Z.of_nat k / 5) (Z.of_nat k mod 5))
                 (handleCellClick p (Z.of_nat k / 5) (Z.of_nat k mod 5))
                 (disabled p))
    else None.
Proof.
  unfold render, indices; rewrite !nth_error_map, nth_error_seq.
  change (Z.to_nat (gridSize * gridSize)) with 25%nat.
  destruct (k <? 25)%nat; [|reflexivity].
  cbn [option_map Nat.add].
  unfold gridSize; rewrite Z.rem_mod_nonneg by lia; reflexivity.
Qed.

(** What a click on the [k]-th cell of a board with a callback does. *)
Lemma clickAt_callback {Callback : Type} (p : Props Callback) (f : Callback)
    (k : nat) :
  onCellClick p = Some f ->
  clickAt p k
  = if (k <? 25)%nat && negb (disabled p)
       && negb (existsb (moveAt (Z.of_nat k / 5) (Z.of_nat k mod 5)) (moves p))
    then [call f (Z.of_nat k / 5) (Z.of_nat k mod 5)]
    else [].
Proof.
  intro Hcb; unfold clickAt; rewrite render_nth.
  destruct (k <? 25)%nat; [|reflexivity].
  unfold click, handleCellClick; simpl; rewrite Hcb.
  destruct (disabled p); [reflexivity|]; simpl.
  destruct (existsb _ _); reflexivity.
Qed.

(** X11: the viewer's own board is inert: whatever the page renders, a
    click on any of its cells posts nothing. *)
Theorem own_board_inert (gameId : string) (loading : bool)
    (game : option Game.GameData.t) (boardState : option Game.BoardState.t)
    (user : Game.User.t) (k : nat) :
  Game.clickOwnCell gameId (Game.render loading game boardState user) k = [].
Proof.
  unfold Game.render, Game.clickOwnCell.
  destruct loading; [reflexivity|].
  destruct game as [g|], boardState as [b|]; try reflexivity.
  destruct (negb (Game.isWaiting g)); [|reflexivity].
  unfold clickAt; rewrite render_nth.
  destruct (k <? 25)%nat; reflexivity.
Qed.

(** X12: a click on the [k]-th cell of the enemy board posts the move
    [(x, y)] exactly when the page has loaded, the game is neither waiting
    nor finished, it is the viewer's turn, [k] is one of the 25 cells,
    [(x, y)] are its coordinates, and none of the viewer's moves targets
    it; in every other case the click posts nothing. *)
Theorem move_posted_iff (gameId : string) (loading : bool)
    (game : Game.GameData.t) (boardState : Game.BoardState.t)
    (user : Game.User.t) (k : nat) (x y : Z) :
  let posts :=
    Game.clickEnemyCell gameId
      (Game.render loading (Some game) (Some boardState) user) k in
  (posts = [Game.post_move gameId x y]
   <-> loading = false
       /\ Game.GameData.state game <> "waiting"
       /\ Game.GameData.state game <> "finished"
       /\ Game.GameData.current_turn game = Some (Game.User.id user)
       /\ (k < 25)%nat
       /\ x = Z.of_nat k / 5 /\ y = Z.of_nat k mod 5
       /\ ~ targeted (Game.BoardState.my_moves boardState) x y)
  /\ (posts = [] \/ exists x' y', posts = [Game.post_move gameId x' y']).
Proof.
  intro posts; subst posts.
  unfold Game.render, Game.clickEnemyCell.
  destruct loading.
  { split; [split; [discriminate|intros [H _]; discriminate]|now left]. }
  unfold Game.isWaiting, Game.enemyBoard.
  destruct (String.eqb_spec (Game.GameData.state game) "waiting")
    as [Hw|Hw]; simpl.
  { split; [split; [discriminate|intros (_ & H & _); contradiction]
           |now left]. }
  rewrite (clickAt_callback _ Game.handleMove) by reflexivity; simpl.
  unfold Game.isMyTurn, Game.isFinished.
  destruct (Game.strictEq _ _) eqn:Et.
  - apply strictEq_true in Et.
    destruct (String.eqb_spec (Game.GameData.state game) "finished")
      as [Hf|Hf]; simpl.
    + rewrite andb_false_r; simpl.
      split; [split; [discriminate|intros (_ & _ & H & _); contradiction]
             |now left].
    + rewrite andb_true_r.
      destruct (Nat.ltb_spec k 25) as [Hk|Hk]; simpl.
      * destruct (existsb _ _) eqn:Em; simpl.
        -- apply some_moveAt in Em.
           split; [split; [discriminate|]|now left].
           intros (_ & _ & _ & _ & _ & -> & -> & H); contradiction.
        -- split; [|right; eauto].
           split.
           ++ intros [= Hx Hy]; subst x y; repeat split; auto.
              intro Ht; apply some_moveAt in Ht; congruence.
           ++ intros (_ & _ & _ & _ & _ & -> & -> & _); reflexivity.
      * split; [split; [discriminate|]|now left].
        intros (_ & _ & _ & _ & H & _); lia.
  - simpl; rewrite andb_false_r; simpl.
    split; [split; [discriminate|]|now left].
    intros (_ & _ & _ & H & _).
    apply strictEq_true in H; congruence.
Qed.

(** X13: while the boards are shown, the "YOUR TURN" badge is rendered
    exactly when the enemy board is enabled; the two turn badges are never
    rendered together; and one of them is rendered exactly when the
    surrender button is. *)
Theorem turn_badges (game : Game.GameData.t) (user : Game.User.t)
    (boardState : Game.BoardState.t) :
  (Game.showYourTurn game user = true
   <-> Game.isWaiting game = false
       /\ disabled (Game.enemyBoard game user boardState) = false)
  /\ Game.showYourTurn game user && Game.showOpponentsTurn game user = false
  /\ Game.showYourTurn game user || Game.showOpponentsTurn game user
     = Game.showSurrender game.
Proof.
  unfold Game.showYourTurn, Game.showOpponentsTurn, Game.showSurrender.
  simpl.
  destruct (Game.isWaiting game), (Game.isMyTurn game user),
    (Game.isFinished game); simpl; repeat split; try tauto;
    try discriminate; intros [H1 H2]; discriminate.
Qed.

(** X14: the page never presents the viewer as their own opponent, unless
    the game itself names its creator as the opponent: the creator sees
    [opponent_id], everybody else sees the creator. *)
Theorem opponent_is_other_side (game : Game.GameData.t) (user : Game.User.t) :
  Game.GameData.opponent_id game <> Some (Game.GameData.creator_id game) ->
  Game.opponentId game user <> Some (Game.User.id user)
  /\ (Game.User.id user = Game.GameData.creator_id game ->
      Game.opponentId game user = Game.GameData.opponent_id game)
  /\ (Game.User.id user <> Game.GameData.creator_id game ->
      Game.opponentId game user = Some (Game.GameData.creator_id game)).
Proof.
  intro Hdistinct; unfold Game.opponentId, Game.isCreator.
  destruct (String.eqb_spec (Game.GameData.creator_id game)
              (Game.User.id user)) as [E|E].
  - repeat split; try congruence.
  - repeat split; congruence.
Qed.

Lemma opponent_is_other_side_witness :
  let game :=
    Game.GameData.mk "alice" (Some "bob") "in_progress" (Some "bob") None in
  let user := Game.User.mk "bob" in
  Game.opponentId game user <> Some (Game.User.id user)
  /\ (Game.User.id user = Game.GameData.creator_id game ->
      Game.opponentId game user = Game.GameData.opponent_id game)
  /\ (Game.User.id user <> Game.GameData.creator_id game ->
      Game.opponentId game user = Some (Game.GameData.creator_id game)).
Proof.
  apply (opponent_is_other_side
           (Game.GameData.mk "alice" (Some "bob") "in_progress" (Some "bob")
              None)
           (Game.User.mk "bob")).
  simpl; discriminate.
Defined.

(** X15: the surrender request is posted, for this game, exactly when the
    page has loaded a game that is neither waiting nor finished and the
    user confirmed; the page navigates, to the lobby, only after a posted
    request that resolved. *)
Theorem surrender_posted_iff (gameId : string) (loading : bool)
    (game : option Game.GameData.t) (boardState : option Game.BoardState.t)
    (confirmed posted : bool) :
  let effects :=
    Game.clickSurrender gameId loading game boardState confirmed posted in
  (forall gameId',
      In (Game.post_surrender gameId') effects
      <-> gameId' = gameId /\ loading = false /\ confirmed = true
          /\ boardState <> None
          /\ exists g, game = Some g
                       /\ Game.GameData.state g <> "waiting"
                       /\ Game.GameData.state g <> "finished")
  /\ (forall path,
        In (Game.navigate path) effects ->
        path = "/lobby" /\ posted = true
        /\ In (Game.post_surrender gameId) effects).
Proof.
  intro effects; subst effects; unfold Game.clickSurrender.
  destruct loading.
  { split; [intro; split; [intros []|intros (_ & H & _); discriminate]
           |intros path []]. }
  destruct game as [g|].
  2:{ split; [intro; split; [intros []|]|intros path []].
      intros (_ & _ & _ & _ & g & H & _); discriminate. }
  destruct boardState as [b|].
  2:{ split; [intro; split; [intros []|]|intros path []].
      intros (_ & _ & _ & H & _); contradiction. }
  unfold Game.showSurrender, Game.isWaiting, Game.isFinished.
  destruct (String.eqb_spec (Game.GameData.state g) "waiting") as [Hw|Hw];
    simpl.
  { split; [intro; split; [intros []|]|intros path []].
    intros (_ & _ & _ & _ & g' & [= <-] & H & _); contradiction. }
  destruct (String.eqb_spec (Game.GameData.state g) "finished") as [Hf|Hf];
    simpl.
  { split; [intro; split; [intros []|]|intros path []].
    intros (_ & _ & _ & _ & g' & [= <-] & _ & H); contradiction. }
  unfold Game.handleSurrender.
  destruct confirmed; simpl.
  - split.
    + intro gameId'; split.
      * intros [[= <-]|Hin].
        -- repeat split; try discriminate; eauto.
        -- destruct posted; simpl in Hin;
             repeat (destruct Hin as [Hin|Hin]; try discriminate);
             destruct Hin.
      * intros (-> & _); now left.
    + intros path [Hin|Hin]; [discriminate|].
      destruct posted; simpl in Hin.
      * destruct Hin as [Hin|[[= <-]|[]]]; [discriminate|].
        repeat split; now left.
      * destruct Hin as [Hin|[]]; discriminate.
  - split; [intro; split; [intros []|]|intros path []].
    intros (_ & _ & H & _); discriminate.
Qed.

End GameMore.

(** ** Avatars *)
Section AvatarFacts.

Import JS Avatars.

Lemma index_none {A : Type} (arr : list A) (i : Z) :
  index arr i = None <-> i < 0 \/ length arr <= i.
Proof.
  unfold index, length.
  destruct (Z.ltb_spec i 0) as [Hneg|Hpos]; [split; auto|].
  rewrite nth_error_None; lia.
Qed.

(** X16: [getAvatarUrl] is undefined exactly for a negative index that is
    not a multiple of six; every url it returns is one of [AVATARS]; for a
    non-negative index it is the entry at [index mod 6]. *)
Theorem getAvatarUrl_defined (i : Z) :
  (getAvatarUrl i = None <-> i < 0 /\ Z.rem i 6 <> 0)
  /\ (forall url, getAvatarUrl i = Some url -> In url AVATARS)
  /\ (0 <= i -> getAvatarUrl i = nth_error AVATARS (Z.to_nat (i mod 6))).
Proof.
  unfold getAvatarUrl.
  change (length AVATARS) with 6.
  split; [|split].
  - rewrite index_none; change (length AVATARS) with 6.
    destruct (Z.lt_ge_cases i 0) as [Hneg|Hpos].
    + pose proof (Z.rem_nonpos i 6 ltac:(lia) ltac:(lia)); lia.
    + pose proof (Z.rem_bound_pos i 6 ltac:(lia) ltac:(lia)); lia.
  - intros url Hurl; unfold index in Hurl.
    destruct (Z.rem i 6 <? 0); [discriminate|].
    eapply nth_error_In; exact Hurl.
  - intro Hpos; unfold index.
    pose proof (Z.rem_bound_pos i 6 ltac:(lia) ltac:(lia)).
    destruct (Z.ltb_spec (Z.rem i 6) 0); [lia|].
    now rewrite Z.rem_mod_nonneg by lia.
Qed.

(** X17: on the non-negative indices [getAvatarUrl] has period six, on
    [0..5] it is plain indexing, and the avatar picker, which maps it over
    the indices of [AVATARS], shows every avatar once, in order. *)
Theorem getAvatarUrl_periodic (i : Z) :
  0 <= i ->
  getAvatarUrl (i + 6) = getAvatarUrl i
  /\ (i < 6 -> getAvatarUrl i = index AVATARS i)
  /\ map getAvatarUrl (indices (length AVATARS)) = map Some AVATARS.
Proof.
  intro Hpos; unfold getAvatarUrl; change (length AVATARS) with 6.
  split; [|split].
  - rewrite !Z.rem_mod_nonneg by lia.
    replace (i + 6) with (i + 1 * 6) by lia.
    now rewrite Z.mod_add by lia.
  - intro Hlt; rewrite Z.rem_small by lia; reflexivity.
  - reflexivity.
Qed.

Lemma getAvatarUrl_periodic_witness :
  getAvatarUrl (4 + 6) = getAvatarUrl 4
  /\ (4 < 6 -> getAvatarUrl 4 = index AVATARS 4)
  /\ map getAvatarUrl (indices (length AVATARS)) = map Some AVATARS.
Proof.
  apply (getAvatarUrl_periodic 4); lia.
Defined.

End AvatarFacts.

(** ** Token handling of the API client *)
Section ApiFacts.

Import Api.

Lemma truthyToken_some (ls : Storage) (token : string) :
  truthyToken ls = Some token
  <-> getItem ls "token" = Some token /\ token <> "".
Proof.
  unfold truthyToken.
  destruct (getItem ls "token") as [t|]; [|split; [|intros []]; discriminate].
  destruct (String.eqb_spec t "") as [->|Hne].
  - split; [discriminate|intros [[= <-] H]; contradiction].
  - split; [intros [= <-]; auto|intros [[= <-] _]; reflexivity].
Qed.

(** X18: after a response error with status 401 the stored token is gone,
    the browser is sent to ["/login"], the other stored keys are kept, and
    from then on [getAuthHeaders] is empty and the request interceptor
    passes every config through unchanged; an error with any other status,
    or without a response, changes nothing and sends the browser
    nowhere. *)
Theorem unauthorized_clears_token (ls : Storage) (status : option Z) :
  let ls' := fst (onResponseError ls status) in
  let redirect := snd (onResponseError ls status) in
  (status = Some 401 ->
   getItem ls' "token" = None
   /\ redirect = Some "/login"
   /\ (forall key, key <> "token" -> getItem ls' key = getItem ls key)
   /\ (forall name, getAuthHeaders ls' name = None)
   /\ (forall config, onRequest ls' config = config))
  /\ (status <> Some 401 -> ls' = ls /\ redirect = None).
Proof.
  split.
  - intros ->; simpl.
    assert (Hnone : truthyToken (removeItem ls "token") = None)
      by reflexivity.
    split; [reflexivity|split; [reflexivity|split; [|split]]].
    + intros key Hkey; unfold getItem, removeItem.
      destruct (String.eqb_spec key "token"); [contradiction|reflexivity].
    + intro name; unfold getAuthHeaders; rewrite Hnone; reflexivity.
    + intro config; unfold onRequest; rewrite Hnone; reflexivity.
  - intro Hne; unfold onResponseError.
    destruct status as [code|]; [|split; reflexivity].
    destruct (Z.eqb_spec code 401) as [->|_]; [contradiction|].
    split; reflexivity.
Qed.

(** X19: the request interceptor and [getAuthHeaders] agree: with a stored
    token that is not empty both give the [Authorization] header
    "Bearer <token>"; with no token or an empty one the interceptor returns
    the config as it is and the headers object is empty; the interceptor
    never touches another header or the url. *)
Theorem request_carries_token (ls : Storage) (config : Config.t) :
  (forall token,
      getItem ls "token" = Some token -> token <> "" ->
      Config.headers (onRequest ls config) "Authorization"
      = Some (String.append "Bearer " token)
      /\ getAuthHeaders ls "Authorization"
         = Some (String.append "Bearer " token))
  /\ (getItem ls "token" = None \/ getItem ls "token" = Some "" ->
      onRequest ls config = config
      /\ forall name, getAuthHeaders ls name = None)
  /\ (forall name,
        name <> "Authorization" ->
        Config.headers (onRequest ls config) name = Config.headers config name
        /\ getAuthHeaders ls name = None)
  /\ Config.url (onRequest ls config) = Config.url config.
Proof.
  split; [|split; [|split]].
  - intros token Htok Hne.
    assert (Ht : truthyToken ls = Some token)
      by (apply truthyToken_some; auto).
    unfold onRequest, getAuthHeaders; rewrite Ht; split; reflexivity.
  - intro Hnone.
    assert (Ht : truthyToken ls = None)
      by (unfold truthyToken; destruct Hnone as [-> | ->]; reflexivity).
    unfold onRequest, getAuthHeaders; rewrite Ht; split; reflexivity.
  - intros name Hname; unfold onRequest, getAuthHeaders.
    destruct (truthyToken ls) as [token|]; simpl;
      [|split; reflexivity].
    unfold setProperty.
    destruct (String.eqb_spec name "Authorization"); [contradiction|].
    split; reflexivity.
  - unfold onRequest; destruct (truthyToken ls); reflexivity.
Qed.

End ApiFacts.

(** ** Route guard *)
Section RouteFacts.

Import App.

(** X20: the admin dashboard is rendered exactly on its own route, once the
    auth context has loaded, for a user whose role is ["admin"]; the lobby
    and the game page are rendered only once the context has loaded with a
    user; and without a user only the two login pages can be rendered. *)
Theorem protected_pages_guarded (auth : Auth.t) (r : Route) :
  (AppRoutes auth r = Render AdminDashboard
   <-> r = route_admin_dashboard /\ Auth.loading auth = false
       /\ exists u, Auth.user auth = Some u /\ AuthUser.role u = "admin")
  /\ (AppRoutes auth r = Render Lobby \/ AppRoutes auth r = Render Game ->
      Auth.loading auth = false /\ Auth.user auth <> None)
  /\ (Auth.user auth = None ->
      forall page, AppRoutes auth r = Render page ->
                   page = Login \/ page = AdminLogin).
Proof.
  unfold AppRoutes, ProtectedRoute.
  split; [|split].
  - split.
    + destruct r; try discriminate;
        destruct (Auth.loading auth); try discriminate;
        destruct (Auth.user auth) as [u|]; try discriminate; simpl;
        try discriminate.
      destruct (String.eqb_spec (AuthUser.role u) "admin"); simpl;
        [|discriminate].
      intros _; repeat split; eauto.
    + intros (-> & -> & u & -> & Hrole).
      rewrite Hrole; reflexivity.
  - intros [H|H]; destruct r; try discriminate;
      destruct (Auth.loading auth); try discriminate;
      destruct (Auth.user auth) as [u|]; try discriminate;
      split; congruence.
  - intros Hnone page; rewrite Hnone.
    destruct r; try destruct (Auth.loading auth); try discriminate;
      intros [= <-]; auto.
Qed.

(** X21: following the guard's redirects always ends after at most one
    hop, on the loading screen or on a page: a visitor without a user ends
    on a login page, and a user who is not an admin and asks for the admin
    dashboard ends in the lobby. *)
Theorem redirects_settle (auth : Auth.t) (r : Route) :
  (exists e, settle 1 auth r = Some e
             /\ (e = LoadingScreen \/ exists page, e = Render page))
  /\ (Auth.loading auth = false -> Auth.user auth = None ->
      settle 1 auth r = Some (Render Login)
      \/ (r = route_admin_login
          /\ settle 1 auth r = Some (Render AdminLogin)))
  /\ (forall u, Auth.loading auth = false -> Auth.user auth = Some u ->
                AuthUser.role u <> "admin" ->
                settle 1 auth route_admin_dashboard = Some (Render Lobby)).
Proof.
  split; [|split].
  - unfold settle, AppRoutes, ProtectedRoute.
    destruct r; simpl;
      destruct (Auth.loading auth); simpl; eauto;
      destruct (Auth.user auth) as [u|]; simpl; eauto;
      destruct (String.eqb (AuthUser.role u) "admin"); simpl; eauto.
  - intros Hl Hu; unfold settle, AppRoutes, ProtectedRoute.
    rewrite Hl, Hu; destruct r; simpl; auto.
  - intros u Hl Hu Hrole; unfold settle, AppRoutes, ProtectedRoute.
    rewrite Hl, Hu; simpl.
    destruct (String.eqb_spec (AuthUser.role u) "admin"); [contradiction|].
    reflexivity.
Qed.

End RouteFacts.

(** ** Fleets the lobby posts *)
Section LobbyFacts.

Import ShipPlacement.

Lemma complete_state_fleet (st : State.t) :
  sessionInvariant st -> sessionShape st ->
  List.length (State.placedShips st) = 3%nat ->
  completeFleet (State.placedShips st)
  /\ NoDup (fleetCells (State.placedShips st))
  /\ List.length (fleetCells (State.placedShips st)) = 9%nat.
Proof.
  intros Hinv Hshape Hlen; split; [|split].
  - pose proof Hinv as (_ & _ & _ & Hboard & Hdisj).
    split; [|split; assumption].
    now apply complete_fleet_sizes.
  - apply Hshape.
  - now apply complete_fleet_nine.
Qed.

Lemma submitted_complete (evs : list Event) :
  Forall (fun fleet => completeFleet fleet
                       /\ NoDup (fleetCells fleet)
                       /\ List.length (fleetCells fleet) = 9%nat)
    (submitted initialState evs).
Proof.
  apply submitted_Forall.
  - apply complete_state_fleet.
  - now apply sessionInvariant_empty.
  - apply sessionShape_initial.
Qed.

(** X22: whatever the user does in the placement dialogs and however the
    requests end, every fleet the lobby posts - to create a game or to join
    the selected one - has the sizes 4, 3, 2 in order, lies on the board,
    and covers nine cells, none of them twice; a join is only ever posted
    for the selected game, and the create dialog posts no join and the
    join dialog no creation. *)
Theorem posted_fleets_complete (evs : list Event)
    (outcome : list Ship.t -> Lobby.Outcome)
    (selectedGame : option Lobby.GameEntry.t) :
  Forall (fun e =>
            match e with
            | Lobby.post_games ships =>
                completeFleet ships /\ NoDup (fleetCells ships)
                /\ List.length (fleetCells ships) = 9%nat
            | Lobby.post_join _ _ => False
            | _ => True
            end)
    (Lobby.createDialog evs outcome)
  /\ Forall (fun e =>
               match e with
               | Lobby.post_join gameId ships =>
                   (exists game, selectedGame = Some game
                                 /\ gameId = Lobby.GameEntry.id game)
                   /\ completeFleet ships /\ NoDup (fleetCells ships)
                   /\ List.length (fleetCells ships) = 9%nat
               | Lobby.post_games _ => False
               | _ => True
               end)
       (Lobby.joinDialog selectedGame evs outcome).
Proof.
  pose proof (submitted_complete evs) as Hall.
  unfold Lobby.createDialog, Lobby.joinDialog.
  split.
  - induction Hall as [|fleet rest Hfleet _ IH]; cbn [flat_map];
      [constructor|].
    apply Forall_app; split; [|exact IH].
    unfold Lobby.handleCreateGame.
    destruct (outcome fleet); simpl;
      repeat (apply Forall_cons; [first [exact I|exact Hfleet]|]);
      apply Forall_nil.
  - induction Hall as [|fleet rest Hfleet _ IH]; cbn [flat_map];
      [constructor|].
    apply Forall_app; split; [|exact IH].
    unfold Lobby.handleJoinGame.
    destruct selectedGame as [game|]; [|constructor].
    assert (Hjoin : (exists g, Some game = Some g
                               /\ Lobby.GameEntry.id game
                                  = Lobby.GameEntry.id g)
                    /\ completeFleet fleet /\ NoDup (fleetCells fleet)
                    /\ List.length (fleetCells fleet) = 9%nat)
      by (split; [eauto|exact Hfleet]).
    destruct (outcome fleet); simpl;
      repeat (apply Forall_cons; [first [exact I|exact Hjoin]|]);
      apply Forall_nil.
Qed.

(** A session that completes a fleet makes the create dialog post it. *)
Example create_dialog_posts :
  Lobby.createDialog
    [CellClick 0 0; CellClick 2 0; CellClick 4 0; Complete]
    (fun _ => Lobby.rejected (Some ""))
  = [ Lobby.setLoading true;
      Lobby.post_games
        [Ship.mk 4 [(0, 0); (0, 1); (0, 2); (0, 3)] "Battleship";
         Ship.mk 3 [(2, 0); (2, 1); (2, 2)] "Cruiser";
         Ship.mk 2 [(4, 0); (4, 1)] "Destroyer"];
      Lobby.toast_error "Failed to create game";
      Lobby.setLoading false ].
Proof. reflexivity. Qed.

(** X23: creating or joining a game always ends by switching [loading]
    off, whether the request resolved or was rejected; the lobby navigates
    exactly when the request resolved - to the created game's page, or to
    the page of the selected game - and closes the dialog only then; and
    without a selected game a join does nothing. *)
Theorem request_handlers_release_loading (ships : list Ship.t)
    (outcome : Lobby.Outcome) (game : Lobby.GameEntry.t) :
  last (Lobby.handleCreateGame ships outcome) (Lobby.setLoading true)
  = Lobby.setLoading false
  /\ last (Lobby.handleJoinGame (Some game) ships outcome)
       (Lobby.setLoading true)
     = Lobby.setLoading false
  /\ (forall path,
        In (Lobby.navigate path) (Lobby.handleCreateGame ships outcome)
        <-> exists id, outcome = Lobby.resolved id
                       /\ path = String.append "/game/" id)
  /\ (forall path,
        In (Lobby.navigate path)
          (Lobby.handleJoinGame (Some game) ships outcome)
        <-> (exists id, outcome = Lobby.resolved id)
            /\ path = String.append "/game/" (Lobby.GameEntry.id game))
  /\ (In (Lobby.setShowCreateDialog false)
        (Lobby.handleCreateGame ships outcome)
      <-> exists id, outcome = Lobby.resolved id)
  /\ Lobby.handleJoinGame None ships outcome = [].
Proof.
  unfold Lobby.handleCreateGame, Lobby.handleJoinGame.
  destruct outcome as [id|detail]; simpl.
  - split; [reflexivity|split; [reflexivity|split; [|split; [|split]]]].
    + intro path; split.
      * intros [H|[H|[H|[H|[H|[H|[]]]]]]]; try discriminate.
        injection H as <-; eauto.
      * intros [id' [[= <-] ->]]; do 4 right; now left.
    + intro path; split.
      * intros [H|[H|[H|[H|[H|[H|[]]]]]]]; try discriminate.
        injection H as <-; eauto.
      * intros [_ ->]; do 4 right; now left.
    + split; [eauto|intros _; do 3 right; now left].
    + reflexivity.
  - split; [reflexivity|split; [reflexivity|split; [|split; [|split]]]].
    + intro path; split.
      * intros [H|[H|[H|[H|[]]]]]; discriminate.
      * intros [id [H _]]; discriminate.
    + intro path; split.
      * intros [H|[H|[H|[H|[]]]]]; discriminate.
      * intros [[id H] _]; discriminate.
    + split.
      * intros [H|[H|[H|[H|[]]]]]; discriminate.
      * intros [id H]; discriminate.
    + reflexivity.
Qed.

End LobbyFacts.
